(** * numba/typing.py: overload resolution over a type lattice

    A shallow embedding of [src/numba/typing.py] (Python 2): the typing
    [Context] with its two registries and its type lattice, [Signature],
    [FunctionTemplate] with the case-list resolution algorithm, and
    [AttributeTemplate].

    Conventions of the embedding:
    - Python integers are [Z]; tuples and lists are [list]; dicts are [gmap].
    - A call either returns a value or raises: [Res A].  A function that
      returns Python's [None] where a value could stand returns [option].
    - Methods that reach the [Context] object run in the monad [M], which
      threads the Context and keeps it when an exception is raised (what a
      method wrote before raising stays written).
    - The module [numba.types] is outside this file's source: the type values,
      [types.pyobject], [is_parametric], [type(value)] and the [getitem] and
      [setitem] protocol of a type are Section variables, and so are the
      platform's [sys.maxint], [hash] on tuples and Python 2's default
      ordering of objects that define no [__lt__]. *)

From Stdlib Require Import ZArith Bool.
From stdpp Require Import base tactics option list gmap strings.

Local Open Scope Z_scope.

(** ** Results and exceptions *)

Inductive Res (E A : Type) : Type :=
| Ok (a : A)
| Raise (e : E).
Arguments Ok {E A} a.
Arguments Raise {E A} e.

Definition Res_bind {E A B} (m : Res E A) (k : A → Res E B) : Res E B :=
  match m with
  | Ok a => k a
  | Raise e => Raise e
  end.

Section Typing.

(** Type values of [numba.types] and the classes they are instances of. *)
Context {ty : Type} `{!EqDecision ty, !Countable ty}.
Context {cls : Type} `{!EqDecision cls, !Countable cls}.

(** [value.is_parametric], [type(value)], [types.pyobject], [sys.maxint]. *)
Variable is_parametric : ty → bool.
Variable type_of : ty → cls.
Variable pyobject : ty.
Variable maxint : Z.

(** ** Signature *)

Record Signature : Type := signature { return_type : ty; args : list ty }.

(** [hash] on a tuple of types. *)
Variable hash : list ty → Z.

(** [Signature.__hash__]: [hash(self.args)]. *)
Definition Signature_hash (self : Signature) : Z := hash (args self).

(** [Signature.__eq__]: [self.args == other.args] ([other] is a Signature
    throughout this file, so the [isinstance] test is passed). *)
Definition Signature_eq (self other : Signature) : bool :=
  bool_decide (args self = args other).

(** [Signature.__ne__]. *)
Definition Signature_ne (self other : Signature) : bool :=
  negb (Signature_eq self other).

(** ** Registry keys

    A function template's key is a string (["getiter"], ["+"]) or a type
    value ([types.range_type]); an attribute template's key is a type value
    or a class ([types.Array]). *)

Inductive key : Type :=
| KStr (s : string)
| KTy (t : ty)
| KCls (c : cls).

#[global] Instance key_eq_dec : EqDecision key.
Proof. solve_decision. Defined.

Definition key_to_sum (k : key) : string + (ty + cls) :=
  match k with
  | KStr s => inl s
  | KTy t => inr (inl t)
  | KCls c => inr (inr c)
  end.

Definition key_of_sum (x : string + (ty + cls)) : key :=
  match x with
  | inl s => KStr s
  | inr (inl t) => KTy t
  | inr (inr c) => KCls c
  end.

#[global] Instance key_countable : Countable key.
Proof. apply (inj_countable' key_to_sum key_of_sum). by intros []. Defined.

(** ** Exceptions *)

Inductive exn : Type :=
| AssertionError (msg : string)
| KeyError (k : key)
| ValueError
| IndexError
| AttributeError (attr : string)
| NotImplementedError (info : option (ty * string))
| TypeError_Ambiguous (named : list Signature)
| TypeError_reduce.

(** ** Templates and the Context

    [gen] names the [generic] methods and [attr_fn] the [resolve_<attr>]
    methods that template classes define; what they do is given further
    down, once the Context they run against is defined. *)

Context {gen attr_fn : Type}.

(** A [FunctionTemplate] subclass: its [key], its [cases] when it declares
    some, its [generic] method when it defines one.  The [context] slot is
    not a field: the methods of a template run in the monad below, on the
    Context that queries them, which is the template's own [context] for
    every template that [load_builtins] registers. *)
Record FunctionTemplate : Type := {
  ft_key : key;
  cases : option (list Signature);
  generic : option gen
}.

(** An [AttributeTemplate] subclass: its [key] and its [resolve_<attr>]
    methods by attribute name. *)
Record AttributeTemplate : Type := {
  at_key : key;
  resolvers : gmap string attr_fn
}.

Record Context : Type := {
  type_lattice : gmap (ty * ty) Z;
  functions : gmap key FunctionTemplate;
  attributes : gmap key AttributeTemplate
}.

(** ** The monad of methods on a Context *)

Definition M (A : Type) : Type := Context → Res exn A * Context.

Definition ret {A} (a : A) : M A := λ c, (Ok a, c).
Definition raise {A} (e : exn) : M A := λ c, (Raise e, c).
Definition bind {A B} (m : M A) (k : A → M B) : M B :=
  λ c, match m c with
       | (Ok a, c') => k a c'
       | (Raise e, c') => (Raise e, c')
       end.
Definition get : M Context := λ c, (Ok c, c).
Definition put (c' : Context) : M unit := λ _, (Ok tt, c').
Definition lift {A} (r : Res exn A) : M A := λ c, (r, c).

(** [frame m]: running [m] hands back the Context it was started on, whether
    it returns or raises. *)
Definition frame {A} (m : M A) : Prop := ∀ c, (m c).2 = c.

#[global] Instance M_ret : MRet M := @ret.
#[global] Instance M_bind : MBind M := λ A B k m, bind m k.
#[global] Instance Res_ret : MRet (Res exn) := @Ok exn.
#[global] Instance Res_mbind : MBind (Res exn) := λ A B k m, Res_bind m k.

(** ** Context: registration *)

(** [Context.insert_attributes]. *)
Definition insert_attributes (at_ : AttributeTemplate) : M unit :=
  self ← get;
  let key := at_key at_ in
  if bool_decide (is_Some (functions self !! key))
  then raise (AssertionError "Duplicated attributes template")
  else put {| type_lattice := type_lattice self;
              functions := functions self;
              attributes := <[key := at_]> (attributes self) |}.

(** [Context.insert_function]. *)
Definition insert_function (ft : FunctionTemplate) : M unit :=
  self ← get;
  let key := ft_key ft in
  if bool_decide (is_Some (functions self !! key))
  then raise (AssertionError "Duplicated function template")
  else put {| type_lattice := type_lattice self;
              functions := <[key := ft]> (functions self);
              attributes := attributes self |}.

(** ** Context: the lattice *)

(** [Context.type_distance]. *)
Definition type_distance (fromty toty : ty) : M (option Z) :=
  if bool_decide (fromty = toty) then ret (Some 0)
  else self ← get; ret (type_lattice self !! (fromty, toty)).

(** [Context.unify_pairs]. *)
Definition unify_pairs (first second : ty) : M ty :=
  d ← type_distance first second;
  match d with
  | None => ret pyobject
  | Some d => if bool_decide (d >= 0) then ret second else ret first
  end.

(** Python 2's [reduce(function, sequence)] without an initial value. *)
Fixpoint reduce_from (f : ty → ty → M ty) (acc : ty) (l : list ty) : M ty :=
  match l with
  | [] => ret acc
  | x :: l' => acc' ← f acc x; reduce_from f acc' l'
  end.

Definition reduce (f : ty → ty → M ty) (l : list ty) : M ty :=
  match l with
  | [] => raise TypeError_reduce
  | x :: l' => reduce_from f x l'
  end.

(** [Context.unify_types]. *)
Definition unify_types (types : list ty) : M ty := reduce unify_pairs types.

(** ** Module-level helpers *)

(** [_uses_downcast]. *)
Fixpoint _uses_downcast (dists : list Z) : bool :=
  match dists with
  | [] => false
  | d :: dists' => if bool_decide (d < 0) then true else _uses_downcast dists'
  end.

(** [_sum_downcast]: the loop, from the running total [c]. *)
Fixpoint _sum_downcast_from (c : Z) (dists : list Z) : Z :=
  match dists with
  | [] => c
  | d :: dists' =>
      _sum_downcast_from (if bool_decide (d < 0) then c + Z.abs d else c) dists'
  end.

Definition _sum_downcast (dists : list Z) : Z := _sum_downcast_from 0 dists.

(** Python's [sum] on a tuple of integers. *)
Definition sum (dists : list Z) : Z := foldl Z.add 0 dists.

(** ** FunctionTemplate: matching *)

(** [FunctionTemplate.apply_case]: the loop over [zip(case.args, args)],
    [distances] being the list built so far. *)
Fixpoint apply_case_loop (pairs : list (ty * ty)) (distances : list Z)
  : M (option (list Z)) :=
  match pairs with
  | [] => mret (Some distances)
  | (formal, actual) :: pairs' =>
      tdist ← type_distance actual formal;
      match tdist with
      | None => mret None
      | Some d => apply_case_loop pairs' (distances ++ [d])
      end
  end.

(** [FunctionTemplate.apply_case]; [kws] is the keyword-argument collection,
    empty exactly when [not kws]. *)
Definition apply_case (case : Signature) (argtys : list ty)
    (kws : list (string * ty)) : M (option (list Z)) :=
  match kws with
  | _ :: _ => raise (AssertionError "Keyword argument is not supported, yet")
  | [] =>
      if bool_decide (length (args case) ≠ length argtys) then mret None
      else apply_case_loop (zip (args case) argtys) []
  end.

(** [FunctionTemplate._find_compatible_definitions]: the loop over [cases],
    from the [upcast] and [downcast] lists built so far. *)
Fixpoint _find_compatible_definitions_loop (cases : list Signature)
    (argtys : list ty) (kws : list (string * ty))
    (upcast : list (Z * Signature)) (downcast : list (list Z * Signature))
  : M (list (Z * Signature) * list (list Z * Signature)) :=
  match cases with
  | [] => mret (upcast, downcast)
  | case :: cases' =>
      dists ← apply_case case argtys kws;
      match dists with
      | Some dists =>
          if _uses_downcast dists
          then _find_compatible_definitions_loop cases' argtys kws
                 upcast (downcast ++ [(dists, case)])
          else _find_compatible_definitions_loop cases' argtys kws
                 (upcast ++ [(sum dists, case)]) downcast
      | None => _find_compatible_definitions_loop cases' argtys kws upcast downcast
      end
  end.

Definition _find_compatible_definitions (cases : list Signature)
    (argtys : list ty) (kws : list (string * ty))
  : M (list (Z * Signature) * list (list Z * Signature)) :=
  _find_compatible_definitions_loop cases argtys kws [] [].

(** ** FunctionTemplate: selection *)

(** Python 2 orders two objects of a class that defines neither [__lt__] nor
    [__cmp__] by their addresses. *)
Variable default_lt : Signature → Signature → bool.

(** [x == y] on [(sum, case)] tuples: item by item. *)
Definition tuple_eq (x y : Z * Signature) : bool :=
  bool_decide (x.1 = y.1) && Signature_eq x.2 y.2.

(** [x < y] on [(sum, case)] tuples: the first items that are not [==]
    decide; tuples whose items are all [==] are not [<]. *)
Definition tuple_lt (x y : Z * Signature) : bool :=
  if bool_decide (x.1 = y.1)
  then if Signature_eq x.2 y.2 then false else default_lt x.2 y.2
  else bool_decide (x.1 < y.1).

(** [min(list)]: the first item is kept until a later one is [<] it. *)
Fixpoint min_from (cur : Z * Signature) (l : list (Z * Signature))
  : Z * Signature :=
  match l with
  | [] => cur
  | item :: l' => min_from (if tuple_lt item cur then item else cur) l'
  end.

Definition min (l : list (Z * Signature)) : Res exn (Z * Signature) :=
  match l with
  | [] => Raise ValueError
  | x :: l' => Ok (min_from x l')
  end.

(** [list.remove(value)]: drops the first item that is [==] to [value]. *)
Fixpoint remove (value : Z * Signature) (l : list (Z * Signature))
  : Res exn (list (Z * Signature)) :=
  match l with
  | [] => Raise ValueError
  | x :: l' =>
      if tuple_eq x value then Ok l'
      else l'' ← remove value l'; Ok (x :: l'')
  end.

(** [FunctionTemplate._select_best_upcast]. *)
Definition _select_best_upcast (upcast : list (Z * Signature))
  : Res exn Signature :=
  match upcast with
  | [] => Raise (AssertionError "")
  | [x] => Ok x.2
  | _ =>
      first ← min upcast;
      upcast' ← remove first upcast;
      second ← min upcast';
      if bool_decide (first.1 < second.1) then Ok first.2
      else Raise (TypeError_Ambiguous [first.2; second.2])
  end.

(** [FunctionTemplate._select_best_downcast]: the loop, from the current
    [downdist] and [leasts]. *)
Fixpoint _select_best_downcast_loop (downcast : list (list Z * Signature))
    (downdist : Z) (leasts : list (list Z * Signature))
  : list (list Z * Signature) :=
  match downcast with
  | [] => leasts
  | (dists, case) :: downcast' =>
      let n := _sum_downcast dists in
      if bool_decide (n < downdist)
      then _select_best_downcast_loop downcast' n [(dists, case)]
      else if bool_decide (n = downdist)
      then _select_best_downcast_loop downcast' downdist (leasts ++ [(dists, case)])
      else _select_best_downcast_loop downcast' downdist leasts
  end.

(** [FunctionTemplate._select_best_downcast]. *)
Definition _select_best_downcast (downcast : list (list Z * Signature))
  : Res exn Signature :=
  match downcast with
  | [] => Raise (AssertionError "")
  | [x] => Ok x.2
  | _ =>
      let leasts := _select_best_downcast_loop downcast maxint [] in
      match leasts with
      | [x] => Ok x.2
      | _ => Raise (TypeError_Ambiguous (snd <$> leasts))
      end
  end.

(** [FunctionTemplate._select_best_definition]; with both lists empty the
    method falls off its end and so returns [None]. *)
Definition _select_best_definition (upcast : list (Z * Signature))
    (downcast : list (list Z * Signature)) : Res exn (option Signature) :=
  match upcast with
  | _ :: _ => case ← _select_best_upcast upcast; Ok (Some case)
  | [] =>
      match downcast with
      | _ :: _ => case ← _select_best_downcast downcast; Ok (Some case)
      | [] => Ok None
      end
  end.

(** ** FunctionTemplate: apply *)

(** What the [generic] methods do, each run with its template, the argument
    types and the keyword arguments; and what the [resolve_<attr>] methods do
    on a value type. *)
Variable run_generic :
  gen → FunctionTemplate → list ty → list (string * ty) → M (option Signature).
Variable run_attr : attr_fn → ty → M ty.

(** [FunctionTemplate.apply]; [if cases:] holds for a non-empty list. *)
Definition apply (self : FunctionTemplate) (argtys : list ty)
    (kws : list (string * ty)) : M (option Signature) :=
  match cases self with
  | Some ((_ :: _) as cases) =>
      '(upcast, downcast) ← _find_compatible_definitions cases argtys kws;
      lift (_select_best_definition upcast downcast)
  | _ =>
      match generic self with
      | Some generic => run_generic generic self argtys kws
      | None => raise (NotImplementedError None)
      end
  end.

(** ** AttributeTemplate *)

(** [AttributeTemplate.resolve]. *)
Definition resolve (self : AttributeTemplate) (value : ty) (attr : string)
  : M ty :=
  match resolvers self !! attr with
  | None => raise (NotImplementedError (Some (value, attr)))
  | Some fn => run_attr fn value
  end.

(** ** Context: the queries *)

(** [Context.resolve_function_type]. *)
Definition resolve_function_type (func : key) (argtys : list ty)
    (kws : list (string * ty)) : M (option Signature) :=
  self ← get;
  match functions self !! func with
  | None => raise (KeyError func)
  | Some ft => apply ft argtys kws
  end.

(** [Context.resolve_getattr]. *)
Definition resolve_getattr (value : ty) (attr : string) : M ty :=
  self ← get;
  attrinfo ← match attributes self !! KTy value with
             | Some attrinfo => mret attrinfo
             | None =>
                 if is_parametric value
                 then match attributes self !! KCls (type_of value) with
                      | Some attrinfo => mret attrinfo
                      | None => raise (KeyError (KCls (type_of value)))
                      end
                 else raise (KeyError (KTy value))
             end;
  resolve attrinfo value attr.

(** [Context.resolve_setitem]. *)
Definition resolve_setitem (target index value : ty) : M (option Signature) :=
  let argtys := [target; index; value] in
  let kws := [] in
  resolve_function_type (KStr "setitem") argtys kws.

(** ** The distance of two members of a domain *)

(** [list.index(value)]: the position of the first item [==] to [value];
    [ValueError] when there is none. *)
Fixpoint list_index (value : ty) (l : list ty) : Res exn nat :=
  match l with
  | [] => Raise ValueError
  | x :: l' =>
      if bool_decide (x = value) then Ok 0%nat
      else i ← list_index value l'; Ok (S i)
  end.

(** [_type_distance]; off its [if] the function returns [None]. *)
Definition _type_distance (domain : list ty) (first second : ty)
  : Res exn (option Z) :=
  if bool_decide (first ∈ domain) && bool_decide (second ∈ domain)
  then i ← list_index first domain;
       j ← list_index second domain;
       Ok (Some (Z.of_nat i - Z.of_nat j))
  else Ok None.

End Typing.


(** ** The builtin templates

    The template classes of the module, in the order the [builtin] and
    [builtin_attr] decorators collect them, and [Context.__init__]. *)

(** The [generic] methods the module defines. *)
Inductive builtin_generic : Type :=
| GetItem_generic
| SetItem_generic.

(** The [resolve_<attr>] methods the module defines. *)
Inductive builtin_resolver : Type :=
| ArrayAttribute_resolve_shape.

Section Builtins.

Context {ty : Type} `{!EqDecision ty, !Countable ty}.
Context {cls : Type} `{!EqDecision cls, !Countable cls}.

(** The names of [numba.types] the module uses. [getitem] and [setitem] give
    what [base.getitem()] and [base.setitem()] return, [None] standing for a
    type without that method; [ndim] gives [value.ndim], [None] for a type
    without that attribute. *)
Variables range_type range_state32_type range_state64_type : ty.
Variables range_iter32_type range_iter64_type : ty.
Variables int32 int64 float32 float64 boolean none intp : ty.
Variable Array : cls.
Variable UniTuple : ty → Z → ty.
Variable getitem : ty → option (ty * ty).
Variable setitem : ty → option (ty * ty).
Variable ndim : ty → option Z.
Variable types_type_lattice : gmap (ty * ty) Z.

Abbreviation FT := (@FunctionTemplate ty cls builtin_generic).
Abbreviation AT := (@AttributeTemplate ty cls builtin_resolver).
Abbreviation Ctx := (@Context ty _ _ cls _ _ builtin_generic builtin_resolver).
Abbreviation MB := (@M ty _ _ cls _ _ builtin_generic builtin_resolver).

Definition Range : FT := {|
  ft_key := KTy range_type;
  cases := Some [
    signature range_state32_type [int32];
    signature range_state32_type [int32; int32];
    signature range_state64_type [int64];
    signature range_state64_type [int64; int64] ];
  generic := None |}.

Definition GetIter : FT := {|
  ft_key := KStr "getiter";
  cases := Some [
    signature range_iter32_type [range_state32_type];
    signature range_iter64_type [range_state64_type] ];
  generic := None |}.

Definition IterNext : FT := {|
  ft_key := KStr "iternext";
  cases := Some [
    signature int32 [range_iter32_type];
    signature int64 [range_iter64_type] ];
  generic := None |}.

Definition IterValid : FT := {|
  ft_key := KStr "itervalid";
  cases := Some [
    signature boolean [range_iter32_type];
    signature boolean [range_iter64_type] ];
  generic := None |}.

Definition BinOp (key : string) : FT := {|
  ft_key := KStr key;
  cases := Some [
    signature int32 [int32; int32];
    signature int64 [int64; int64];
    signature float32 [float32; float32];
    signature float64 [float64; float64] ];
  generic := None |}.

Definition BinOpAdd : FT := BinOp "+".
Definition BinOpSub : FT := BinOp "-".
Definition BinOpMul : FT := BinOp "*".
Definition BinOpDiv : FT := BinOp "/?".

Definition CmpOp (key : string) : FT := {|
  ft_key := KStr key;
  cases := Some [
    signature boolean [int32; int32];
    signature boolean [int64; int64];
    signature boolean [float32; float32];
    signature boolean [float64; float64] ];
  generic := None |}.

Definition CmpOpLt : FT := CmpOp "<".
Definition CmpOpLe : FT := CmpOp "<=".
Definition CmpOpGt : FT := CmpOp ">".
Definition CmpOpGe : FT := CmpOp ">=".
Definition CmpOpEq : FT := CmpOp "==".
Definition CmpOpNe : FT := CmpOp "!=".

Definition GetItem : FT := {|
  ft_key := KStr "getitem";
  cases := None;
  generic := Some GetItem_generic |}.

Definition SetItem : FT := {|
  ft_key := KStr "setitem";
  cases := None;
  generic := Some SetItem_generic |}.

Definition ArrayAttribute : AT := {|
  at_key := KCls Array;
  resolvers := {[ "shape" := ArrayAttribute_resolve_shape ]} |}.

(** [GetItem.generic] and [SetItem.generic]. *)
Definition run_builtin_generic (g : builtin_generic) (self : FT)
    (argtys : list ty) (kws : list (string * ty)) : MB (option Signature) :=
  match g with
  | GetItem_generic =>
      match kws with
      | _ :: _ => raise (AssertionError "")
      | [] =>
          match argtys with
          | [] => raise IndexError
          | base :: _ =>
              match getitem base with
              | Some (retty, indty) =>
                  let case := signature retty [base; indty] in
                  m ← apply_case case argtys kws;
                  match m with
                  | Some _ => mret (Some case)
                  | None => mret None
                  end
              | None => raise (NotImplementedError None)
              end
          end
      end
  | SetItem_generic =>
      match kws with
      | _ :: _ => raise (AssertionError "")
      | [] =>
          match argtys with
          | [base; index; value] =>
              match setitem base with
              | Some (indty, valty) =>
                  let sig := signature none [base; indty; valty] in
                  mret (Some sig)
              | None => raise (NotImplementedError None)
              end
          | _ => raise ValueError
          end
      end
  end.

(** [ArrayAttribute.resolve_shape]. *)
Definition run_builtin_resolver (fn : builtin_resolver) (value : ty) : MB ty :=
  match fn with
  | ArrayAttribute_resolve_shape =>
      match ndim value with
      | Some n => mret (UniTuple intp n)
      | None => raise (AttributeError "ndim")
      end
  end.

Definition BUILTINS : list FT :=
  [ Range; GetIter; IterNext; IterValid;
    BinOpAdd; BinOpSub; BinOpMul; BinOpDiv;
    CmpOpLt; CmpOpLe; CmpOpGt; CmpOpGe; CmpOpEq; CmpOpNe;
    GetItem; SetItem ].

Definition BUILTIN_ATTRS : list AT := [ ArrayAttribute ].

(** A [for] loop whose body returns nothing. *)
Fixpoint for_each {A} (body : A → MB unit) (l : list A) : MB unit :=
  match l with
  | [] => mret tt
  | x :: l' => _ ← body x; for_each body l'
  end.

(** [Context.load_builtins]. *)
Definition load_builtins : MB unit :=
  _ ← for_each insert_function BUILTINS;
  for_each insert_attributes BUILTIN_ATTRS.

(** [Context.__init__]: [type_lattice or types.type_lattice] takes the
    default for [None] and for an empty dict alike. *)
Definition Context_init (type_lattice : option (gmap (ty * ty) Z))
  : Res exn unit * Ctx :=
  let lattice :=
    match type_lattice with
    | Some l => if bool_decide (l = ∅) then types_type_lattice else l
    | None => types_type_lattice
    end in
  load_builtins {| type_lattice := lattice; functions := ∅; attributes := ∅ |}.

End Builtins.

(** ** A small type catalog

    An instance of what [numba.types] provides, used to run the module on
    concrete queries: types are named by strings, the array types are the
    parametric ones and are instances of the class ["Array"]. *)

Module Catalog.

Definition is_parametric (t : string) : bool :=
  bool_decide (t = "array1d") || bool_decide (t = "array2d").

Definition type_of (t : string) : string :=
  if is_parametric t then "Array" else "Type".

Definition pyobject : string := "pyobject".

Definition maxint : Z := 2 ^ 63 - 1.

Definition hash (l : list string) : Z :=
  foldl (λ h t, h * 31 + Z.of_nat (String.length t)) 7 l.

Definition default_lt (a b : @Signature string) : bool :=
  String.ltb (return_type a) (return_type b).

Definition UniTuple (t : string) (n : Z) : string :=
  if bool_decide (n = 1) then "UniTuple(" +:+ t +:+ ", 1)"
  else "UniTuple(" +:+ t +:+ ", 2)".

Definition getitem (t : string) : option (string * string) :=
  if is_parametric t then Some ("float64", "intp") else None.

Definition setitem (t : string) : option (string * string) :=
  if is_parametric t then Some ("intp", "float64") else None.

Definition ndim (t : string) : option Z :=
  if bool_decide (t = "array1d") then Some 1
  else if bool_decide (t = "array2d") then Some 2
  else None.

Definition lattice : gmap (string * string) Z :=
  list_to_map [
    (("int32", "int64"), 1); (("int64", "int32"), -1);
    (("int32", "float32"), 2); (("float32", "int32"), -2);
    (("int32", "float64"), 3); (("float64", "int32"), -3);
    (("int64", "float64"), 2); (("float64", "int64"), -2);
    (("float32", "float64"), 1); (("float64", "float32"), -1) ].

Abbreviation Ctx :=
  (@Context string _ _ string _ _ builtin_generic builtin_resolver).

Definition run_generic :=
  @run_builtin_generic string _ _ string _ _ "none" getitem setitem.

Definition run_attr :=
  @run_builtin_resolver string _ _ string _ _ "intp" UniTuple ndim.

(** The Context that [Context()] builds. *)
Definition context : Ctx :=
  (Context_init "range" "range_state32" "range_state64"
     "range_iter32" "range_iter64" "int32" "int64" "float32" "float64"
     "boolean" "Array" lattice None).2.

(** A second attribute template under the key of [ArrayAttribute], as an
    extension would bring. *)
Definition ArrayExtension : @AttributeTemplate string string builtin_resolver :=
  {| at_key := KCls "Array";
     resolvers := {[ "dims" := ArrayAttribute_resolve_shape ]} |}.

(** A lattice with two narrowing entries beyond [sys.maxint], a template
    whose two cases are reached through them, and a Context holding both. *)
Definition steep_lattice : gmap (string * string) Z :=
  list_to_map [
    (("wide", "narrow"), - 2 ^ 63);
    (("wide", "narrower"), - 2 ^ 63 - 1) ].

Definition Squeeze : @FunctionTemplate string string builtin_generic := {|
  ft_key := KStr "squeeze";
  cases := Some [ signature "narrow" ["narrow"];
                  signature "narrower" ["narrower"] ];
  generic := None |}.

Definition steep_context : Ctx := {|
  type_lattice := steep_lattice;
  functions := {[ KStr "squeeze" := Squeeze ]};
  attributes := ∅ |}.

(** The builtin templates over the catalog's types. *)
Definition Add : @FunctionTemplate string string builtin_generic :=
  BinOpAdd "int32" "int64" "float32" "float64".

Definition Lt : @FunctionTemplate string string builtin_generic :=
  CmpOpLt "int32" "int64" "float32" "float64" "boolean".

Definition Shape : @AttributeTemplate string string builtin_resolver :=
  ArrayAttribute "Array".

End Catalog.

(** ** numba/ocl/ufunc.py: the dispatcher's launch arithmetic

    The two methods of [OclUFuncDispatcher] that work on integers and on the
    [shape] and [strides] tuples of their arguments. *)

Module Ufunc.

Inductive error : Type :=
| ZeroDivisionError
| IndexError
| TypeError (msg : string)
| ValueError (msg : string).

#[global] Instance error_ret : MRet (Res error) := @Ok error.
#[global] Instance error_bind : MBind (Res error) := λ A B k m, Res_bind m k.

(** [OclUFuncDispatcher._determine_dimensions]; [//] is floor division, as
    [Z.div] is, and [int] of an integer is that integer. *)
Definition _determine_dimensions (n max_thread : Z) : Res error (Z * Z) :=
  let thread_count := Z.min max_thread n in
  if bool_decide (max_thread = 0) then Raise ZeroDivisionError
  else
    let block_count := (n + max_thread - 1) `div` max_thread in
    Ok (block_count, thread_count).

(** What [_arguments_requirement] reads of an array. *)
Record array : Type := { strides : list Z; shape : list Z }.

(** [t[0]] on a tuple. *)
Definition item0 (t : list Z) : Res error Z :=
  match t with
  | [] => Raise IndexError
  | x :: _ => Ok x
  end.

(** [_arguments_requirement]: the first loop, over [enumerate(args)] from
    index [i], [array_shapes] being the list built so far. *)
Fixpoint _arguments_requirement_collect (i : nat) (args : list array)
    (array_shapes : list (nat * Z)) : Res error (list (nat * Z)) :=
  match args with
  | [] => Ok array_shapes
  | a :: args' =>
      s0 ← item0 (strides a);
      if bool_decide (s0 ≠ 0)
      then n ← item0 (shape a);
           _arguments_requirement_collect (S i) args' (array_shapes ++ [(i, n)])
      else _arguments_requirement_collect (S i) args' array_shapes
  end.

(** [_arguments_requirement]: the second loop.  The [raise] statement builds
    its message with ["arg %d should have length %d" % ms]: two conversions
    and the single integer [ms], which is a [TypeError] of the [%] operator,
    raised before any [ValueError] exists. *)
Fixpoint _arguments_requirement_check (ms : Z) (rest : list (nat * Z))
  : Res error unit :=
  match rest with
  | [] => Ok tt
  | (i, s) :: rest' =>
      if bool_decide (ms ≠ s)
      then Raise (TypeError "not enough arguments for format string")
      else _arguments_requirement_check ms rest'
  end.

(** [OclUFuncDispatcher._arguments_requirement]. *)
Definition _arguments_requirement (args : list array) : Res error unit :=
  array_shapes ← _arguments_requirement_collect 0 args [];
  match array_shapes with
  | [] => Raise IndexError
  | (_, ms) :: rest => _arguments_requirement_check ms rest
  end.

End Ufunc.

(** * Properties *)

Section TypingTheory.

Context {ty : Type} `{!EqDecision ty, !Countable ty}.
Context {cls : Type} `{!EqDecision cls, !Countable cls}.
Context {gen attr_fn : Type}.

Variable is_parametric : ty → bool.
Variable type_of : ty → cls.
Variable pyobject : ty.
Variable maxint : Z.
Variable hash : list ty → Z.
Variable default_lt : @Signature ty → @Signature ty → bool.

#[local] Abbreviation Ctx := (@Context ty _ _ cls _ _ gen attr_fn).
#[local] Abbreviation FT := (@FunctionTemplate ty cls gen).
#[local] Abbreviation AT := (@AttributeTemplate ty cls attr_fn).
#[local] Abbreviation Mc := (@M ty _ _ cls _ _ gen attr_fn).
#[local] Abbreviation Exn := (@exn ty cls).
#[local] Abbreviation Sig := (@Signature ty).

Variable run_generic :
  gen → FT → list ty → list (string * ty) → Mc (option (@Signature ty)).
Variable run_attr : attr_fn → ty → Mc ty.

(** ** Methods that leave the Context as they found it *)

Lemma frame_ret {A} (a : A) : frame (ret a : Mc A).
Proof. by intros c. Qed.

Lemma frame_mret {A} (a : A) : frame (mret a : Mc A).
Proof. by intros c. Qed.

Lemma frame_raise {A} (e : Exn) : frame (raise e : Mc A).
Proof. by intros c. Qed.

Lemma frame_get : frame (get : Mc Ctx).
Proof. by intros c. Qed.

Lemma frame_lift {A} (r : Res Exn A) : frame (lift r : Mc A).
Proof. by intros c. Qed.

Lemma frame_bind {A B} (m : Mc A) (k : A → Mc B) :
  frame m → (∀ a, frame (k a)) → frame (m ≫= k).
Proof.
  intros Hm Hk c. unfold mbind, M_bind, bind.
  specialize (Hm c). destruct (m c) as [[a|e] c']; simpl in *; subst.
  - apply Hk.
  - done.
Qed.

(** A framed method run twice from the same Context answers the same. *)
Lemma frame_again {A} (m : Mc A) (c : Ctx) : frame m → m (m c).2 = m c.
Proof. intros Hm. by rewrite Hm. Qed.

Lemma type_distance_run (c : Ctx) (fromty toty : ty) :
  type_distance fromty toty c =
    (Ok (if bool_decide (fromty = toty) then Some 0
         else type_lattice c !! (fromty, toty)), c).
Proof. unfold type_distance. by case_bool_decide. Qed.

Lemma frame_type_distance (fromty toty : ty) :
  frame (type_distance fromty toty : Mc _).
Proof. intros c. by rewrite type_distance_run. Qed.

Lemma frame_apply_case_loop pairs distances :
  frame (apply_case_loop pairs distances : Mc _).
Proof.
  revert distances. induction pairs as [|[formal actual] pairs IH];
    intros distances; simpl.
  - apply frame_mret.
  - apply frame_bind; [apply frame_type_distance|].
    intros [d|]; [apply IH | apply frame_mret].
Qed.

Lemma frame_apply_case case argtys kws :
  frame (apply_case case argtys kws : Mc _).
Proof.
  unfold apply_case. destruct kws; [|apply frame_raise].
  case_bool_decide; [apply frame_mret | apply frame_apply_case_loop].
Qed.

Lemma frame__find_compatible_definitions_loop cases argtys kws upcast downcast :
  frame (_find_compatible_definitions_loop cases argtys kws upcast downcast
           : Mc _).
Proof.
  revert upcast downcast. induction cases as [|case cases IH];
    intros upcast downcast; simpl.
  - apply frame_mret.
  - apply frame_bind; [apply frame_apply_case|].
    intros [dists|]; [|apply IH]. destruct (_uses_downcast dists); apply IH.
Qed.

Lemma frame_apply (self : FT) argtys kws :
  (∀ g ft a k, frame (run_generic g ft a k)) →
  frame (apply maxint default_lt run_generic self argtys kws).
Proof.
  intros Hgen. unfold apply.
  destruct (cases self) as [[|case cases']|].
  2: { apply frame_bind; [apply frame__find_compatible_definitions_loop|].
       intros [upcast downcast]. apply frame_lift. }
  all: destruct (generic self); [apply Hgen | apply frame_raise].
Qed.

Lemma frame_resolve (self : AT) value attr :
  (∀ fn v, frame (run_attr fn v)) →
  frame (resolve run_attr self value attr).
Proof.
  intros Hattr. unfold resolve.
  destruct (resolvers self !! attr); [apply Hattr | apply frame_raise].
Qed.

Lemma frame_resolve_function_type func argtys kws :
  (∀ g ft a k, frame (run_generic g ft a k)) →
  frame (resolve_function_type maxint default_lt run_generic func argtys kws).
Proof.
  intros Hgen. unfold resolve_function_type.
  apply frame_bind; [apply frame_get|]. intros self.
  destruct (functions self !! func); [by apply frame_apply | apply frame_raise].
Qed.

Lemma frame_resolve_getattr value attr :
  (∀ fn v, frame (run_attr fn v)) →
  frame (resolve_getattr is_parametric type_of run_attr value attr).
Proof.
  intros Hattr. unfold resolve_getattr.
  apply frame_bind; [apply frame_get|]. intros self.
  apply frame_bind; [|intros attrinfo; by apply frame_resolve].
  destruct (attributes self !! KTy value); [apply frame_mret|].
  destruct (is_parametric value); [|apply frame_raise].
  destruct (attributes self !! KCls (type_of value));
    [apply frame_mret | apply frame_raise].
Qed.

(** ** The lattice *)

(** C7. [type_distance t t] is [0] whatever the table holds; for two distinct
    types it is the table's entry for [(fromty, toty)], [None] when the table
    has none.  The Context is left as it was. *)
Theorem type_distance_spec (c : Ctx) (t fromty toty : ty) :
  type_distance t t c = (Ok (Some 0), c) ∧
  (fromty ≠ toty →
   type_distance fromty toty c = (Ok (type_lattice c !! (fromty, toty)), c)).
Proof.
  rewrite !type_distance_run. split.
  - by rewrite bool_decide_eq_true_2.
  - intros Hne. by rewrite bool_decide_eq_false_2.
Qed.

(** C8. [unify_pairs first second] looks at [type_distance first second],
    which always returns: on [None] the result is [types.pyobject], on a
    distance [>= 0] it is [second], on a distance [< 0] it is [first]. *)
Theorem unify_pairs_spec (c : Ctx) (first second : ty) :
  (∃ d, type_distance first second c = (Ok d, c)) ∧
  (type_distance first second c = (Ok None, c) →
   unify_pairs pyobject first second c = (Ok pyobject, c)) ∧
  (∀ d, type_distance first second c = (Ok (Some d), c) → d >= 0 →
   unify_pairs pyobject first second c = (Ok second, c)) ∧
  (∀ d, type_distance first second c = (Ok (Some d), c) → d < 0 →
   unify_pairs pyobject first second c = (Ok first, c)).
Proof.
  unfold unify_pairs, mbind, M_bind, bind.
  split; [rewrite type_distance_run; eauto|].
  split; [|split].
  - intros ->. done.
  - intros d -> Hd. by rewrite bool_decide_eq_true_2.
  - intros d -> Hd. rewrite bool_decide_eq_false_2; [done | lia].
Qed.

(** ** Signature *)

(** C9. Two Signatures are [==] exactly when their [args] are equal, [==]
    Signatures have equal hashes, and neither looks at [return_type]: the
    same [args] under two return types are [==] and hash alike. *)
Theorem Signature_eq_hash_args_only :
  (∀ s1 s2 : @Signature ty, Signature_eq s1 s2 = true ↔ args s1 = args s2) ∧
  (∀ s1 s2 : @Signature ty, Signature_eq s1 s2 = true →
     Signature_hash hash s1 = Signature_hash hash s2) ∧
  (∀ (r1 r2 : ty) (a : list ty),
     Signature_eq (signature r1 a) (signature r2 a) = true ∧
     Signature_ne (signature r1 a) (signature r2 a) = false ∧
     Signature_hash hash (signature r1 a) = Signature_hash hash (signature r2 a)) ∧
  (∀ (r1 r1' r2 r2' : ty) (a1 a2 : list ty),
     Signature_eq (signature r1 a1) (signature r2 a2) =
       Signature_eq (signature r1' a1) (signature r2' a2)).
Proof.
  unfold Signature_ne, Signature_eq, Signature_hash.
  split; [|split; [|split]].
  - intros s1 s2. by rewrite bool_decide_eq_true.
  - intros s1 s2. rewrite bool_decide_eq_true. by intros ->.
  - intros r1 r2 a. simpl. rewrite bool_decide_eq_true_2; done.
  - done.
Qed.

(** ** Keyword arguments *)

(** C5. A template with a non-empty case list applied with any non-empty
    keyword-argument collection raises the assertion error of [apply_case],
    at the first case; nothing is returned and the Context is untouched. *)
Theorem apply_kws_raises (self : FT) (case : Signature)
    (cases' : list Signature) (argtys : list ty)
    (kw : string * ty) (kws : list (string * ty)) (c : Ctx) :
  cases self = Some (case :: cases') →
  apply maxint default_lt run_generic self argtys (kw :: kws) c =
    (Raise (AssertionError "Keyword argument is not supported, yet"), c).
Proof. intros Hcases. unfold apply. by rewrite Hcases. Qed.

(** ** No candidate *)

(** C1 (as the code has it). When the matching phase of a case-list template
    ends with both the upcast and the downcast list empty, [apply] raises
    nothing: it returns [None]. *)
Theorem apply_no_match_returns_None (self : FT) (case : Signature)
    (cases' : list Signature) (argtys : list ty) (kws : list (string * ty))
    (c c' : Ctx) :
  cases self = Some (case :: cases') →
  _find_compatible_definitions (case :: cases') argtys kws c = (Ok ([], []), c') →
  apply maxint default_lt run_generic self argtys kws c = (Ok None, c').
Proof.
  intros Hcases Hfind. unfold apply. rewrite Hcases.
  unfold mbind, M_bind, bind. by rewrite Hfind.
Qed.

(** ** Registration *)

(** [insert_attributes] on a Context whose attribute registry already has the
    template's key, the function registry not having it. *)
Lemma insert_attributes_overwrites (c : Ctx) (at_ old : AT) :
  attributes c !! at_key at_ = Some old →
  functions c !! at_key at_ = None →
  insert_attributes at_ c =
    (Ok tt, {| type_lattice := type_lattice c;
               functions := functions c;
               attributes := <[at_key at_ := at_]> (attributes c) |}).
Proof.
  intros _ Hfun. unfold insert_attributes, mbind, M_bind, bind, get. simpl.
  rewrite bool_decide_eq_false_2; [done|]. rewrite Hfun. by intros [? ?].
Qed.

(** ** Attribute resolution *)

(** C6. [resolve_getattr] uses the template registered under the value type
    itself; when there is none and the type is parametric, the template
    registered under the type's class; and a template that has no
    [resolve_<attr>] method for the name raises [NotImplementedError(value,
    attr)]. *)
Theorem resolve_getattr_spec (c : Ctx) (value : ty) (attr : string) :
  (∀ attrinfo, attributes c !! KTy value = Some attrinfo →
     resolve_getattr is_parametric type_of run_attr value attr c =
       resolve run_attr attrinfo value attr c) ∧
  (∀ attrinfo, attributes c !! KTy value = None →
     is_parametric value = true →
     attributes c !! KCls (type_of value) = Some attrinfo →
     resolve_getattr is_parametric type_of run_attr value attr c =
       resolve run_attr attrinfo value attr c) ∧
  (∀ attrinfo : AT, resolvers attrinfo !! attr = None →
     resolve run_attr attrinfo value attr c =
       (Raise (NotImplementedError (Some (value, attr))), c)).
Proof.
  unfold resolve_getattr, resolve, mbind, M_bind, bind, get. simpl.
  split; [|split].
  - by intros attrinfo ->.
  - by intros attrinfo -> -> ->.
  - by intros attrinfo ->.
Qed.

(** ** Upcast selection *)

Lemma tuple_lt_le (x y : Z * Sig) :
  (tuple_lt default_lt x y = true → x.1 <= y.1) ∧
  (tuple_lt default_lt x y = false → y.1 <= x.1).
Proof.
  unfold tuple_lt. case_bool_decide as Heq.
  - split; intros _; lia.
  - split; [intros Hlt%bool_decide_eq_true_1 | intros Hlt%bool_decide_eq_false_1];
      lia.
Qed.

Lemma tuple_eq_refl (x : Z * Sig) : tuple_eq x x = true.
Proof.
  unfold tuple_eq, Signature_eq. by rewrite !bool_decide_eq_true_2.
Qed.

Lemma tuple_eq_fst (x y : Z * Sig) : tuple_eq x y = true → x.1 = y.1.
Proof.
  unfold tuple_eq. intros [H _]%andb_true_iff. by apply bool_decide_eq_true_1 in H.
Qed.

(** [min] keeps an item of the list, and one whose sum no item undercuts. *)
Lemma min_from_elem (cur : Z * Sig) l : min_from default_lt cur l ∈ cur :: l.
Proof.
  revert cur. induction l as [|item l IH]; intros cur; simpl.
  - apply list_elem_of_here.
  - pose proof (IH (if tuple_lt default_lt item cur then item else cur)) as Hin.
    apply elem_of_cons in Hin as [Hin|Hin].
    + rewrite Hin. destruct (tuple_lt default_lt item cur);
        [apply list_elem_of_further|]; apply list_elem_of_here.
    + by do 2 apply list_elem_of_further.
Qed.

Lemma min_from_le_cur (cur : Z * Sig) l : (min_from default_lt cur l).1 <= cur.1.
Proof.
  revert cur. induction l as [|item l IH]; intros cur; simpl; [lia|].
  pose proof (tuple_lt_le item cur) as [Hlt Hge].
  pose proof (IH (if tuple_lt default_lt item cur then item else cur)) as Hle.
  destruct (tuple_lt default_lt item cur); [specialize (Hlt eq_refl); lia | done].
Qed.

Lemma min_from_least (cur : Z * Sig) l e :
  e ∈ cur :: l → (min_from default_lt cur l).1 <= e.1.
Proof.
  revert cur. induction l as [|item l IH]; intros cur He.
  - apply list_elem_of_singleton in He as ->. simpl. lia.
  - simpl. pose proof (tuple_lt_le item cur) as [Hlt Hge].
    pose proof (min_from_le_cur
      (if tuple_lt default_lt item cur then item else cur) l) as Hle.
    apply elem_of_cons in He as [->|He].
    + destruct (tuple_lt default_lt item cur);
        [specialize (Hlt eq_refl); lia | done].
    + apply elem_of_cons in He as [->|He].
      * destruct (tuple_lt default_lt item cur);
          [done | specialize (Hge eq_refl); lia].
      * apply IH. by apply list_elem_of_further.
Qed.

(** [remove] takes out exactly one item, the first that is [==] to the value,
    and finds one whenever the value itself is in the list. *)
Lemma remove_elem (v : Z * Sig) l :
  v ∈ l →
  ∃ l1 e l2, l = l1 ++ e :: l2 ∧ tuple_eq e v = true ∧
    (remove v l : Res Exn _) = Ok (l1 ++ l2).
Proof.
  induction l as [|x l IH]; intros Hv; [by apply elem_of_nil in Hv|].
  simpl. destruct (tuple_eq x v) eqn:Hx.
  - by exists [], x, l.
  - apply elem_of_cons in Hv as [->|Hv]; [by rewrite tuple_eq_refl in Hx|].
    destruct (IH Hv) as (l1 & e & l2 & -> & He & ->).
    by exists (x :: l1), e, l2.
Qed.

(** ** Downcast selection *)

(** The cost [_sum_downcast] gives a distance tuple: the absolute values of
    its negative entries, added up; the other entries do not count. *)
Lemma _sum_downcast_from_spec (c : Z) (dists : list Z) :
  _sum_downcast_from c dists =
    c + foldr Z.add 0 (Z.abs <$> filter (λ d, d < 0) dists).
Proof.
  revert c. induction dists as [|d dists IH]; intros c; simpl; [lia|].
  rewrite IH, filter_cons. case_bool_decide; case_decide; try lia.
  rewrite fmap_cons. simpl. lia.
Qed.

Lemma foldr_min_le (d : Z) (cs : list Z) : foldr Z.min d cs <= d.
Proof. induction cs as [|c cs IH]; simpl; lia. Qed.

Lemma foldr_min_lower (d : Z) (cs : list Z) (c : Z) :
  c ∈ cs → foldr Z.min d cs <= c.
Proof.
  induction cs as [|c' cs IH]; intros Hc; [by apply elem_of_nil in Hc|].
  simpl. apply elem_of_cons in Hc as [->|Hc]; [lia|].
  specialize (IH Hc). lia.
Qed.

Lemma foldr_min_attained (d : Z) (cs : list Z) :
  foldr Z.min d cs = d ∨ foldr Z.min d cs ∈ cs.
Proof.
  induction cs as [|c cs IH]; simpl; [by left|].
  destruct (Z.min_spec c (foldr Z.min d cs)) as [[_ ->]|[_ ->]].
  - right. apply list_elem_of_here.
  - destruct IH as [IH|IH]; [by left | right; by apply list_elem_of_further].
Qed.

Lemma foldr_min_start (a b : Z) (cs : list Z) :
  a <= b → foldr Z.min a cs = Z.min a (foldr Z.min b cs).
Proof. intros Hab. induction cs as [|c cs IH]; simpl; lia. Qed.

(** What the loop of [_select_best_downcast] leaves in [leasts]: with [m] the
    least of [downdist] and the costs still to come, the candidates of cost
    [m] if that undercuts [downdist], and otherwise the earlier [leasts]
    followed by the candidates of cost [downdist]. *)
Lemma _select_best_downcast_loop_spec (l : list (list Z * Sig))
    (downdist : Z) (leasts : list (list Z * Sig)) :
  _select_best_downcast_loop l downdist leasts =
    let m := foldr Z.min downdist ((λ e, _sum_downcast e.1) <$> l) in
    if bool_decide (m < downdist)
    then filter (λ e, _sum_downcast e.1 = m) l
    else leasts ++ filter (λ e, _sum_downcast e.1 = downdist) l.
Proof.
  revert downdist leasts.
  induction l as [|[dists case] l IH]; intros downdist leasts.
  - simpl. rewrite bool_decide_eq_false_2 by lia. by rewrite app_nil_r.
  - cbn [_select_best_downcast_loop fmap list_fmap foldr fst].
    set (n := _sum_downcast dists).
    set (cs := (λ e : list Z * Sig, _sum_downcast e.1) <$> l).
    fold (fmap (M:=list) (λ e : list Z * Sig, _sum_downcast e.1) l).
    fold cs.
    pose proof (foldr_min_le downdist cs) as Hle.
    rewrite !filter_cons. cbn [fst]. fold n.
    case_bool_decide as Hlt; [|case_bool_decide as Heq].
    + rewrite IH. cbn zeta. fold cs.
      pose proof (foldr_min_le n cs) as Hle'.
      rewrite (foldr_min_start n downdist cs) by lia.
      set (m := Z.min n (foldr Z.min downdist cs)).
      rewrite (bool_decide_eq_true_2 (m < downdist)) by lia.
      destruct (decide (m < n)) as [Hm|Hm].
      * rewrite bool_decide_eq_true_2 by done.
        rewrite decide_False by lia. done.
      * rewrite bool_decide_eq_false_2 by done.
        rewrite decide_True by lia. by replace m with n by lia.
    + rewrite IH. cbn zeta. fold cs. subst downdist.
      replace (Z.min n (foldr Z.min n cs)) with (foldr Z.min n cs) by lia.
      case_bool_decide.
      * rewrite decide_False by lia. done.
      * rewrite decide_True by done. by rewrite <- app_assoc.
    + rewrite IH. cbn zeta. fold cs.
      replace (Z.min n (foldr Z.min downdist cs))
        with (foldr Z.min downdist cs) by lia.
      case_bool_decide.
      * rewrite decide_False by lia. done.
      * rewrite decide_False by lia. done.
Qed.

(** [_select_best_downcast] step by step.  With one candidate in the list,
    that candidate is returned.  With more, a candidate's cost is the sum of
    the absolute values of its negative distances only; when the least cost
    [m] among the candidates does not exceed [sys.maxint], the candidates of
    cost [m] are collected in list order: a single one is returned, and two
    or more raise the ambiguity error naming all of them. *)
Lemma _select_best_downcast_steps (x y : list Z * Sig)
    (l : list (list Z * Sig)) (m : Z) :
  (∀ dists, _sum_downcast dists =
     foldr Z.add 0 (Z.abs <$> filter (λ d, d < 0) dists)) ∧
  (_select_best_downcast maxint [x] : Res Exn _) = Ok x.2 ∧
  ((∃ e, e ∈ x :: y :: l ∧ _sum_downcast e.1 = m) →
   (∀ e, e ∈ x :: y :: l → m <= _sum_downcast e.1) →
   m <= maxint →
   let leasts := filter (λ e, _sum_downcast e.1 = m) (x :: y :: l) in
   leasts ≠ [] ∧
   (∀ e, leasts = [e] →
      (_select_best_downcast maxint (x :: y :: l) : Res Exn _) = Ok e.2) ∧
   (length leasts ≠ 1%nat →
      (_select_best_downcast maxint (x :: y :: l) : Res Exn _) =
        Raise (TypeError_Ambiguous (snd <$> leasts)))).
Proof.
  split; [|split; [done|]].
  { intros dists. unfold _sum_downcast. rewrite _sum_downcast_from_spec. lia. }
  intros (e0 & He0 & Hcost) Hleast Hmax leasts.
  set (downcast := x :: y :: l) in *.
  set (cs := (λ e : list Z * Sig, _sum_downcast e.1) <$> downcast).
  assert (Hm : foldr Z.min maxint cs = m).
  { pose proof (foldr_min_le maxint cs) as Hle.
    assert (Hup : foldr Z.min maxint cs <= m).
    { rewrite <- Hcost. apply foldr_min_lower.
      apply list_elem_of_fmap. by exists e0. }
    destruct (foldr_min_attained maxint cs) as [Hd|Hin]; [lia|].
    apply list_elem_of_fmap in Hin as (e & He & Hin).
    specialize (Hleast e Hin). lia. }
  assert (Hloop : _select_best_downcast_loop downcast maxint [] = leasts).
  { rewrite _select_best_downcast_loop_spec. cbn zeta. fold cs. rewrite Hm.
    case_bool_decide; [done|]. simpl. by replace maxint with m by lia. }
  assert (Hrun : (_select_best_downcast maxint downcast : Res Exn _) =
            match leasts with
            | [e] => Ok e.2
            | _ => Raise (TypeError_Ambiguous (snd <$> leasts))
            end).
  { unfold _select_best_downcast, downcast at 1. fold downcast.
    by rewrite Hloop. }
  split; [|split].
  - intros Hnil. assert (He : e0 ∈ leasts).
    { apply list_elem_of_filter. by split. }
    rewrite Hnil in He. by apply elem_of_nil in He.
  - intros e He. rewrite Hrun. by rewrite He.
  - intros Hlen. rewrite Hrun. destruct leasts as [|e1 [|e2 rest]]; done.
Qed.

(** ** Resolution leaves the Context alone *)

(** C10. Provided the [generic] and [resolve_<attr>] methods that templates
    bring along do not write to the Context, each of the three queries ends,
    returning or raising, on the very Context it started on: function
    registry, attribute registry and type lattice are what they were, and the
    same query asked again gets the same answer. *)
Theorem resolution_frame (c : Ctx) :
  (∀ g ft a k, frame (run_generic g ft a k)) →
  (∀ fn v, frame (run_attr fn v)) →
  (∀ func argtys kws,
     let q := resolve_function_type maxint default_lt run_generic func argtys kws in
     functions (q c).2 = functions c ∧ attributes (q c).2 = attributes c ∧
     type_lattice (q c).2 = type_lattice c ∧ q (q c).2 = q c) ∧
  (∀ value attr,
     let q := resolve_getattr is_parametric type_of run_attr value attr in
     functions (q c).2 = functions c ∧ attributes (q c).2 = attributes c ∧
     type_lattice (q c).2 = type_lattice c ∧ q (q c).2 = q c) ∧
  (∀ target index value,
     let q := resolve_setitem maxint default_lt run_generic target index value in
     functions (q c).2 = functions c ∧ attributes (q c).2 = attributes c ∧
     type_lattice (q c).2 = type_lattice c ∧ q (q c).2 = q c).
Proof.
  intros Hgen Hattr. split; [|split].
  - intros func argtys kws q.
    assert (Hq : (q c).2 = c) by by apply frame_resolve_function_type.
    by rewrite !Hq.
  - intros value attr q.
    assert (Hq : (q c).2 = c) by by apply frame_resolve_getattr.
    by rewrite !Hq.
  - intros target index value q.
    assert (Hq : (q c).2 = c) by by apply frame_resolve_function_type.
    by rewrite !Hq.
Qed.

End TypingTheory.

(** ** The builtin methods leave the Context alone *)

Section BuiltinsTheory.

Context {ty : Type} `{!EqDecision ty, !Countable ty}.
Context {cls : Type} `{!EqDecision cls, !Countable cls}.

Variables none intp : ty.
Variable UniTuple : ty → Z → ty.
Variable getitem : ty → option (ty * ty).
Variable setitem : ty → option (ty * ty).
Variable ndim : ty → option Z.

Lemma frame_run_builtin_generic g ft argtys kws :
  frame (run_builtin_generic (cls:=cls) none getitem setitem g ft argtys kws).
Proof.
  destruct g; simpl.
  - destruct kws; [|apply frame_raise].
    destruct argtys as [|base argtys]; [apply frame_raise|].
    destruct (getitem base) as [[retty indty]|]; [|apply frame_raise].
    apply frame_bind; [apply frame_apply_case|].
    intros [m|]; apply frame_mret.
  - destruct kws; [|apply frame_raise].
    destruct argtys as [|base [|index [|value [|]]]]; try apply frame_raise.
    destruct (setitem base) as [[indty valty]|];
      [apply frame_mret | apply frame_raise].
Qed.

Lemma frame_run_builtin_resolver fn value :
  frame (run_builtin_resolver (cls:=cls) intp UniTuple ndim fn value).
Proof.
  destruct fn; simpl.
  destruct (ndim value); [apply frame_mret | apply frame_raise].
Qed.

End BuiltinsTheory.

(** * The module run on the catalog *)

Import Catalog.

(** C7 at the catalog's lattice: [int32] to itself, and [int32] to [int64]. *)
Lemma type_distance_spec_witness :
  type_distance "int32" "int32" context = (Ok (Some 0), context) ∧
  type_distance "int32" "int64" context = (Ok (Some 1), context).
Proof.
  destruct (type_distance_spec context "int32" "int32" "int64") as [Hsame Hdiff].
  split; [exact Hsame|]. rewrite Hdiff; [reflexivity | discriminate].
Defined.

(** C8 at the catalog's lattice: no path, a promotion, a demotion. *)
Lemma unify_pairs_spec_witness :
  unify_pairs pyobject "boolean" "int32" context = (Ok "pyobject", context) ∧
  unify_pairs pyobject "int32" "int64" context = (Ok "int64", context) ∧
  unify_pairs pyobject "float64" "int32" context = (Ok "float64", context).
Proof.
  split; [|split].
  - destruct (unify_pairs_spec pyobject context "boolean" "int32")
      as (_ & Hnone & _ & _).
    apply Hnone. reflexivity.
  - destruct (unify_pairs_spec pyobject context "int32" "int64")
      as (_ & _ & Hup & _).
    apply (Hup 1); [reflexivity | lia].
  - destruct (unify_pairs_spec pyobject context "float64" "int32")
      as (_ & _ & _ & Hdown).
    apply (Hdown (-3)); [reflexivity | lia].
Defined.

(** C9 on two signatures of the comparison and arithmetic templates. *)
Lemma Signature_eq_hash_args_only_witness :
  Signature_eq (signature "int32" ["int32"; "int32"])
               (signature "boolean" ["int32"; "int32"]) = true ∧
  Signature_hash hash (signature "int32" ["int32"; "int32"]) =
    Signature_hash hash (signature "boolean" ["int32"; "int32"]).
Proof.
  destruct (Signature_eq_hash_args_only (ty:=string) hash)
    as (Heq & Hhash & _ & _).
  assert (H : Signature_eq (signature "int32" ["int32"; "int32"])
                (signature "boolean" ["int32"; "int32"]) = true)
    by (apply Heq; reflexivity).
  split; [exact H | exact (Hhash _ _ H)].
Defined.

(** C5 on the [+] template with one keyword argument. *)
Lemma apply_kws_raises_witness :
  apply maxint default_lt run_generic Add ["int32"; "int32"]
    [("out", "int32")] context =
    (Raise (AssertionError "Keyword argument is not supported, yet"), context).
Proof.
  apply (apply_kws_raises maxint default_lt run_generic Add
           (signature "int32" ["int32"; "int32"])
           [signature "int64" ["int64"; "int64"];
            signature "float32" ["float32"; "float32"];
            signature "float64" ["float64"; "float64"]]).
  reflexivity.
Defined.

(** C1: on the [+] template, two booleans match no case; both lists of the
    matching phase are empty, and [apply] returns [None] and raises nothing. *)
Lemma apply_no_match_counterexample :
  _find_compatible_definitions
    [signature "int32" ["int32"; "int32"];
     signature "int64" ["int64"; "int64"];
     signature "float32" ["float32"; "float32"];
     signature "float64" ["float64"; "float64"]]
    ["boolean"; "boolean"] [] context = (Ok ([], []), context) ∧
  apply maxint default_lt run_generic Add ["boolean"; "boolean"] [] context =
    (Ok None, context) ∧
  ¬ ∃ e, (apply maxint default_lt run_generic Add
            ["boolean"; "boolean"] [] context).1 = Raise e.
Proof.
  split; [reflexivity|]. split; [reflexivity|].
  intros [e He]. vm_compute in He. discriminate.
Qed.

(** C1 (as the code has it) on the [<] template and an array operand. *)
Lemma apply_no_match_returns_None_witness :
  apply maxint default_lt run_generic Lt ["array1d"; "int32"] [] context =
    (Ok None, context).
Proof.
  apply (apply_no_match_returns_None maxint default_lt run_generic Lt
           (signature "boolean" ["int32"; "int32"])
           [signature "boolean" ["int64"; "int64"];
            signature "boolean" ["float32"; "float32"];
            signature "boolean" ["float64"; "float64"]]);
    reflexivity.
Defined.

(** C3. The template [Squeeze] has no upcast candidate for [(wide)] under the
    steep lattice and two downcast candidates, of cost [2^63] and [2^63 + 1],
    both beyond [sys.maxint], the value the loop of [_select_best_downcast]
    starts its search from.  The case [narrow] is the only candidate of least
    cost, yet [apply] does not return it: the ambiguity error is raised, and
    it names no candidate.  Left alone in its template, the same case at the
    same cost is returned, by the branch for a single candidate. *)
Theorem select_best_downcast_beyond_maxint :
  cases Squeeze = Some [signature "narrow" ["narrow"];
                        signature "narrower" ["narrower"]] ∧
  _find_compatible_definitions
    [signature "narrow" ["narrow"]; signature "narrower" ["narrower"]]
    ["wide"] [] steep_context =
    (Ok ([], [([- 2 ^ 63], signature "narrow" ["narrow"]);
              ([- 2 ^ 63 - 1], signature "narrower" ["narrower"])]),
     steep_context) ∧
  _sum_downcast [- 2 ^ 63] = 2 ^ 63 ∧
  _sum_downcast [- 2 ^ 63 - 1] = 2 ^ 63 + 1 ∧
  maxint < 2 ^ 63 ∧
  apply maxint default_lt run_generic Squeeze ["wide"] [] steep_context =
    (Raise (TypeError_Ambiguous []), steep_context) ∧
  apply maxint default_lt run_generic
    {| ft_key := KStr "squeeze";
       cases := Some [signature "narrow" ["narrow"]];
       generic := None |} ["wide"] [] steep_context =
    (Ok (Some (signature "narrow" ["narrow"])), steep_context).
Proof. repeat split. Qed.

(** C6 on the catalog's Context: [array2d] has no template of its own and is
    parametric, so the template of its class answers; and that template has
    no method for [size]. *)
Lemma resolve_getattr_spec_witness :
  resolve_getattr is_parametric type_of run_attr "array2d" "shape" context =
    (Ok "UniTuple(intp, 2)", context) ∧
  resolve run_attr Shape "array2d" "size" context =
    (Raise (NotImplementedError (Some ("array2d", "size"))), context).
Proof.
  split.
  - destruct (resolve_getattr_spec is_parametric type_of run_attr
                context "array2d" "shape") as (_ & Hcls & _).
    rewrite (Hcls Shape); reflexivity.
  - destruct (resolve_getattr_spec is_parametric type_of run_attr
                context "array2d" "size") as (_ & _ & Hnone).
    apply Hnone. reflexivity.
Defined.

(** C10 on the catalog's Context with the builtin methods: one query of each
    kind, one of them raising. *)
Lemma resolution_frame_witness :
  (let q := resolve_function_type maxint default_lt run_generic
              (KStr "+") ["int32"; "int64"] [] in
   functions (q context).2 = functions context ∧
   attributes (q context).2 = attributes context ∧
   type_lattice (q context).2 = type_lattice context ∧
   q (q context).2 = q context) ∧
  (let q := resolve_getattr is_parametric type_of run_attr "array1d" "size" in
   functions (q context).2 = functions context ∧
   attributes (q context).2 = attributes context ∧
   type_lattice (q context).2 = type_lattice context ∧
   q (q context).2 = q context) ∧
  (let q := resolve_setitem maxint default_lt run_generic
              "array1d" "intp" "float64" in
   functions (q context).2 = functions context ∧
   attributes (q context).2 = attributes context ∧
   type_lattice (q context).2 = type_lattice context ∧
   q (q context).2 = q context).
Proof.
  destruct (resolution_frame is_parametric type_of maxint default_lt
              run_generic run_attr context) as (Hfun & Hattr & Hset).
  - intros g ft a k. apply frame_run_builtin_generic.
  - intros fn v. apply frame_run_builtin_resolver.
  - split; [|split].
    + exact (Hfun (KStr "+") ["int32"; "int64"] []).
    + exact (Hattr "array1d" "size").
    + exact (Hset "array1d" "intp" "float64").
Defined.

(** C4: the catalog's Context has an attribute template under the class
    [Array]; registering a second template under that key raises nothing
    and replaces the first, the duplicate test of [insert_attributes] looking
    into the function registry.  [insert_function] on a taken key raises. *)
Theorem insert_attributes_duplicate_accepted :
  attributes context !! KCls "Array" = Some Shape ∧
  at_key ArrayExtension = KCls "Array" ∧
  (insert_attributes ArrayExtension context).1 = Ok tt ∧
  attributes (insert_attributes ArrayExtension context).2 !! KCls "Array" =
    Some ArrayExtension ∧
  insert_function Add context =
    (Raise (AssertionError "Duplicated function template"), context).
Proof.
  split; [reflexivity|]. split; [reflexivity|].
  rewrite (insert_attributes_overwrites context ArrayExtension Shape)
    by reflexivity.
  split; [reflexivity|]. split; [|reflexivity].
  simpl. apply lookup_insert_eq.
Qed.

(** ** The builtin catalog at work

    The arithmetic and range-iteration scenarios: an exact match at distance
    zero, a promotion preferred over the cases that need a demotion, and the
    [getiter] / [itervalid] / [iternext] protocol of [range]. *)

Example resolve_add_exact :
  resolve_function_type maxint default_lt run_generic
    (KStr "+") ["int32"; "int32"] [] context =
    (Ok (Some (signature "int32" ["int32"; "int32"])), context).
Proof. reflexivity. Qed.

Example resolve_add_promotes :
  resolve_function_type maxint default_lt run_generic
    (KStr "+") ["int32"; "int64"] [] context =
    (Ok (Some (signature "int64" ["int64"; "int64"])), context).
Proof. reflexivity. Qed.

Example resolve_range_protocol :
  resolve_function_type maxint default_lt run_generic
    (KStr "getiter") ["range_state32"] [] context =
    (Ok (Some (signature "range_iter32" ["range_state32"])), context) ∧
  resolve_function_type maxint default_lt run_generic
    (KStr "itervalid") ["range_iter32"] [] context =
    (Ok (Some (signature "boolean" ["range_iter32"])), context) ∧
  resolve_function_type maxint default_lt run_generic
    (KStr "iternext") ["range_iter32"] [] context =
    (Ok (Some (signature "int32" ["range_iter32"])), context).
Proof. repeat split. Qed.

Example resolve_unknown_operation :
  resolve_function_type maxint default_lt run_generic
    (KStr "%") ["int32"; "int32"] [] context =
    (Raise (KeyError (KStr "%")), context).
Proof. reflexivity. Qed.

(** * Further properties of the module *)

Section DomainTheory.

Context {ty : Type} `{!EqDecision ty, !Countable ty}.
Context {cls : Type}.

#[local] Abbreviation Exn := (@exn ty cls).

(** A member of the list has an index: the position of its first occurrence. *)
Lemma list_index_elem (a : ty) (l : list ty) :
  a ∈ l →
  ∃ i, (list_index a l : Res Exn nat) = Ok i ∧ l !! i = Some a ∧
       (i < length l)%nat.
Proof.
  induction l as [|x l IH]; intros Ha; [by apply elem_of_nil in Ha|].
  simpl. case_bool_decide as Hx.
  - subst x. exists 0%nat. repeat split. simpl. lia.
  - apply elem_of_cons in Ha as [->|Ha]; [done|].
    destruct (IH Ha) as (i & -> & Hi & Hlen).
    exists (S i). repeat split; [done | simpl; lia].
Qed.

(** Two members with the same index are the same. *)
Lemma list_index_inj (a b : ty) (l : list ty) (i : nat) :
  (list_index a l : Res Exn nat) = Ok i →
  (list_index b l : Res Exn nat) = Ok i → a = b.
Proof.
  revert i. induction l as [|x l IH]; intros i; simpl; [done|].
  case_bool_decide as Ha; case_bool_decide as Hb.
  - congruence.
  - destruct (list_index b l : Res Exn nat); simpl; intros; simplify_eq.
  - destruct (list_index a l : Res Exn nat); simpl; intros; simplify_eq.
  - destruct (list_index a l : Res Exn nat) as [ia|] eqn:Hia; simpl; [|done].
    destruct (list_index b l : Res Exn nat) as [ib|] eqn:Hib; simpl; [|done].
    intros ??; simplify_eq. by eapply IH.
Qed.

(** X1. [_type_distance] never raises, and it returns [None] exactly when
    one of the two types is not in the domain. *)
Theorem type_distance_domain_defined (domain : list ty) (a b : ty) :
  (∃ r, (_type_distance domain a b : Res Exn _) = Ok r) ∧
  ((_type_distance domain a b : Res Exn _) = Ok None ↔
   a ∉ domain ∨ b ∉ domain).
Proof.
  unfold _type_distance.
  destruct (decide (a ∈ domain)) as [Ha|Ha];
    destruct (decide (b ∈ domain)) as [Hb|Hb].
  - rewrite !bool_decide_eq_true_2 by done. simpl.
    destruct (list_index_elem a domain Ha) as (i & -> & _).
    destruct (list_index_elem b domain Hb) as (j & -> & _). simpl.
    split; [eauto|]. split; [done | intros [?|?]; done].
  - rewrite (bool_decide_eq_false_2 (b ∈ domain)) by done.
    rewrite andb_false_r. split; [eauto|]. split; [by right | done].
  - rewrite (bool_decide_eq_false_2 (a ∈ domain)) by done. simpl.
    split; [eauto|]. split; [by left | done].
  - rewrite (bool_decide_eq_false_2 (a ∈ domain)) by done. simpl.
    split; [eauto|]. split; [by left | done].
Qed.

Lemma _type_distance_members (domain : list ty) (a b : ty) :
  a ∈ domain → b ∈ domain →
  ∃ i j, (list_index a domain : Res Exn nat) = Ok i ∧
         (list_index b domain : Res Exn nat) = Ok j ∧
         (i < length domain)%nat ∧ (j < length domain)%nat ∧
         (_type_distance domain a b : Res Exn _) =
           Ok (Some (Z.of_nat i - Z.of_nat j)).
Proof.
  intros Ha Hb. unfold _type_distance.
  rewrite !bool_decide_eq_true_2 by done. simpl.
  destruct (list_index_elem a domain Ha) as (i & Hi & _ & Hil).
  destruct (list_index_elem b domain Hb) as (j & Hj & _ & Hjl).
  exists i, j. rewrite Hi, Hj. done.
Qed.

(** X2. On two members of the domain [_type_distance] is antisymmetric, is
    zero exactly when the two are equal, and stays strictly within the
    length of the domain. *)
Theorem type_distance_domain_antisym (domain : list ty) (a b : ty) :
  a ∈ domain → b ∈ domain →
  ∃ d, (_type_distance domain a b : Res Exn _) = Ok (Some d) ∧
       (_type_distance domain b a : Res Exn _) = Ok (Some (- d)) ∧
       (d = 0 ↔ a = b) ∧
       - Z.of_nat (length domain) < d < Z.of_nat (length domain).
Proof.
  intros Ha Hb.
  destruct (_type_distance_members domain a b Ha Hb)
    as (i & j & Hi & Hj & Hil & Hjl & Hab).
  destruct (_type_distance_members domain b a Hb Ha)
    as (j' & i' & Hj' & Hi' & _ & _ & Hba).
  assert (j' = j) by congruence. assert (i' = i) by congruence. subst j' i'.
  exists (Z.of_nat i - Z.of_nat j). split; [done|]. split.
  { rewrite Hba. do 2 f_equal. lia. }
  split; [|lia]. split.
  - intros Hd. assert (i = j) by lia. subst j. by eapply list_index_inj.
  - intros ->. assert (i = j) by congruence. lia.
Qed.

(** X3. Distances along the domain add up: from [a] to [c] it is the
    distance from [a] to [b] plus the distance from [b] to [c]. *)
Theorem type_distance_domain_additive (domain : list ty) (a b c : ty) :
  a ∈ domain → b ∈ domain → c ∈ domain →
  ∃ x y, (_type_distance domain a b : Res Exn _) = Ok (Some x) ∧
         (_type_distance domain b c : Res Exn _) = Ok (Some y) ∧
         (_type_distance domain a c : Res Exn _) = Ok (Some (x + y)).
Proof.
  intros Ha Hb Hc.
  destruct (_type_distance_members domain a b Ha Hb)
    as (i & j & Hi & Hj & _ & _ & Hab).
  destruct (_type_distance_members domain b c Hb Hc)
    as (j' & k & Hj' & Hk & _ & _ & Hbc).
  destruct (_type_distance_members domain a c Ha Hc)
    as (i' & k' & Hi' & Hk' & _ & _ & Hac).
  assert (j' = j) by congruence. assert (i' = i) by congruence.
  assert (k' = k) by congruence. subst j' i' k'.
  exists (Z.of_nat i - Z.of_nat j), (Z.of_nat j - Z.of_nat k).
  split; [done|]. split; [done|]. rewrite Hac. do 2 f_equal. lia.
Qed.

End DomainTheory.

Section DistanceTuples.

(** What [_uses_downcast] tests. *)
Lemma _uses_downcast_spec (dists : list Z) :
  _uses_downcast dists = true ↔ ∃ d, d ∈ dists ∧ d < 0.
Proof.
  induction dists as [|d dists IH]; simpl.
  - split; [done | intros (d & Hd & _); by apply elem_of_nil in Hd].
  - case_bool_decide as Hneg.
    + split; [|done]. intros _. exists d. split; [apply list_elem_of_here | done].
    + rewrite IH. split.
      * intros (d' & Hd' & Hlt). exists d'. split; [by apply list_elem_of_further|done].
      * intros (d' & Hd' & Hlt). apply elem_of_cons in Hd' as [->|Hd']; [lia|].
        by exists d'.
Qed.

Lemma _sum_downcast_from_ge (c : Z) (dists : list Z) :
  c <= _sum_downcast_from c dists.
Proof.
  revert c. induction dists as [|d dists IH]; intros c; simpl; [lia|].
  case_bool_decide.
  - pose proof (IH (c + Z.abs d)). lia.
  - apply IH.
Qed.

Lemma _sum_downcast_from_eq (c : Z) (dists : list Z) :
  _sum_downcast_from c dists = c ↔ _uses_downcast dists = false.
Proof.
  revert c. induction dists as [|d dists IH]; intros c; simpl; [done|].
  case_bool_decide as Hneg.
  - pose proof (_sum_downcast_from_ge (c + Z.abs d) dists).
    split; [lia | done].
  - apply IH.
Qed.

Lemma _sum_downcast_pos (dists : list Z) :
  _uses_downcast dists = true → 1 <= _sum_downcast dists.
Proof.
  intros Hdown. unfold _sum_downcast.
  pose proof (_sum_downcast_from_ge 0 dists) as Hge.
  destruct (decide (_sum_downcast_from 0 dists = 0)) as [H0|H0]; [|lia].
  apply _sum_downcast_from_eq in H0. congruence.
Qed.

(** X4. The cost [_sum_downcast] gives a distance tuple is never negative,
    and it is zero exactly when [_uses_downcast] finds no negative entry:
    a tuple that uses a downcast costs at least one. *)
Theorem sum_downcast_zero_iff (dists : list Z) :
  0 <= _sum_downcast dists ∧
  (_sum_downcast dists = 0 ↔ _uses_downcast dists = false) ∧
  (_uses_downcast dists = true ↔ 1 <= _sum_downcast dists) ∧
  (_uses_downcast dists = true ↔ ∃ d, d ∈ dists ∧ d < 0).
Proof.
  unfold _sum_downcast.
  pose proof (_sum_downcast_from_ge 0 dists) as Hge.
  pose proof (_sum_downcast_from_eq 0 dists) as Heq.
  split; [done|]. split; [done|]. split; [|apply _uses_downcast_spec].
  destruct (_uses_downcast dists).
  - split; [|done]. intros _.
    destruct (decide (_sum_downcast_from 0 dists = 0)) as [H0|H0]; [|lia].
    apply Heq in H0. done.
  - split; [done|]. intros Hpos. destruct Heq as [_ Heq].
    specialize (Heq eq_refl). lia.
Qed.

(** Without a negative entry the plain sum of a tuple is not negative. *)
Lemma sum_nonneg (dists : list Z) :
  _uses_downcast dists = false → 0 <= sum dists.
Proof.
  unfold sum. intros Hup.
  assert (Hgen : ∀ a, 0 <= a → 0 <= foldl Z.add a dists); [|by apply Hgen].
  induction dists as [|d dists IH]; intros a Ha; simpl in *; [done|].
  case_bool_decide as Hneg; [done|]. apply IH; [done | lia].
Qed.

End DistanceTuples.

Section ContextTheory.

Context {ty : Type} `{!EqDecision ty, !Countable ty}.
Context {cls : Type} `{!EqDecision cls, !Countable cls}.
Context {gen attr_fn : Type}.

Variable is_parametric : ty → bool.
Variable type_of : ty → cls.
Variable pyobject : ty.
Variable maxint : Z.
Variable default_lt : @Signature ty → @Signature ty → bool.

#[local] Abbreviation Ctx := (@Context ty _ _ cls _ _ gen attr_fn).
#[local] Abbreviation FT := (@FunctionTemplate ty cls gen).
#[local] Abbreviation AT := (@AttributeTemplate ty cls attr_fn).
#[local] Abbreviation Mc := (@M ty _ _ cls _ _ gen attr_fn).
#[local] Abbreviation Sig := (@Signature ty).

Variable run_generic :
  gen → FT → list ty → list (string * ty) → Mc (option Sig).
Variable run_attr : attr_fn → ty → Mc ty.

(** ** Registration *)

(** X5. [insert_function] under a key the function registry does not have
    registers the template there and changes nothing else: the other
    function keys, the attribute registry and the lattice stay.  Under a key
    the registry has, it raises and leaves the Context as it was. *)
Theorem insert_function_spec (c : Ctx) (ft : FT) :
  (functions c !! ft_key ft = None →
   ∃ c', insert_function ft c = (Ok tt, c') ∧
     functions c' !! ft_key ft = Some ft ∧
     (∀ k, k ≠ ft_key ft → functions c' !! k = functions c !! k) ∧
     attributes c' = attributes c ∧ type_lattice c' = type_lattice c) ∧
  (is_Some (functions c !! ft_key ft) →
   insert_function ft c =
     (Raise (AssertionError "Duplicated function template"), c)).
Proof.
  unfold insert_function, mbind, M_bind, bind, get. simpl. split.
  - intros Hfree. rewrite bool_decide_eq_false_2
      by (rewrite Hfree; by intros [? ?]).
    eexists. split; [reflexivity|]. simpl.
    split; [apply lookup_insert_eq|]. split; [|done].
    intros k Hk. by apply lookup_insert_ne.
  - intros Htaken. by rewrite bool_decide_eq_true_2.
Qed.

(** X7. [insert_attributes] raises exactly when the template's key is a key
    of the function registry; otherwise it registers the template under its
    key in the attribute registry, whatever was there, and leaves the other
    attribute keys, the function registry and the lattice alone. *)
Theorem insert_attributes_spec (c : Ctx) (at_ : AT) :
  (is_Some (functions c !! at_key at_) →
   insert_attributes at_ c =
     (Raise (AssertionError "Duplicated attributes template"), c)) ∧
  (functions c !! at_key at_ = None →
   ∃ c', insert_attributes at_ c = (Ok tt, c') ∧
     attributes c' !! at_key at_ = Some at_ ∧
     (∀ k, k ≠ at_key at_ → attributes c' !! k = attributes c !! k) ∧
     functions c' = functions c ∧ type_lattice c' = type_lattice c).
Proof.
  unfold insert_attributes, mbind, M_bind, bind, get. simpl. split.
  - intros Htaken. by rewrite bool_decide_eq_true_2.
  - intros Hfree. rewrite bool_decide_eq_false_2
      by (rewrite Hfree; by intros [? ?]).
    eexists. split; [reflexivity|]. simpl.
    split; [apply lookup_insert_eq|]. split; [|done].
    intros k Hk. by apply lookup_insert_ne.
Qed.

(** X8. An attribute template registered under a value type answers the
    attribute queries on that type from then on, parametric or not and
    whatever is registered under the type's class. *)
Theorem insert_attributes_then_getattr (c : Ctx) (at_ : AT)
    (value : ty) (attr : string) :
  at_key at_ = KTy value →
  functions c !! KTy value = None →
  (insert_attributes at_ ≫= λ _,
     resolve_getattr is_parametric type_of run_attr value attr) c =
    resolve run_attr at_ value attr
      {| type_lattice := type_lattice c;
         functions := functions c;
         attributes := <[KTy value := at_]> (attributes c) |}.
Proof.
  intros Hkey Hfree.
  unfold insert_attributes, resolve_getattr, mbind, M_bind, bind, get.
  simpl. rewrite Hkey.
  rewrite bool_decide_eq_false_2 by (rewrite Hfree; by intros [? ?]).
  simpl. by rewrite lookup_insert_eq.
Qed.

(** X9. The class template is a fallback for parametric types only: a type
    that is not parametric and has no template of its own raises [KeyError]
    on the type, whatever is registered under its class; a parametric type
    with neither raises [KeyError] on the class. *)
Theorem resolve_getattr_missing (c : Ctx) (value : ty) (attr : string) :
  attributes c !! KTy value = None →
  (is_parametric value = false →
   resolve_getattr is_parametric type_of run_attr value attr c =
     (Raise (KeyError (KTy value)), c)) ∧
  (is_parametric value = true →
   attributes c !! KCls (type_of value) = None →
   resolve_getattr is_parametric type_of run_attr value attr c =
     (Raise (KeyError (KCls (type_of value))), c)).
Proof.
  intros Hexact.
  unfold resolve_getattr, mbind, M_bind, bind, get. simpl. rewrite Hexact.
  split; [by intros -> | by intros -> ->].
Qed.

(** ** Unification *)

Lemma unify_pairs_run (c : Ctx) (first second : ty) :
  unify_pairs pyobject first second c =
    (Ok (match (if bool_decide (first = second) then Some 0
                else type_lattice c !! (first, second)) with
         | None => pyobject
         | Some d => if bool_decide (d >= 0) then second else first
         end), c).
Proof.
  unfold unify_pairs, mbind, M_bind, bind. rewrite type_distance_run.
  destruct (if bool_decide (first = second) then Some 0
            else type_lattice c !! (first, second)) as [d|]; [|done].
  by case_bool_decide.
Qed.

Lemma reduce_from_unify_pairs (c : Ctx) (acc : ty) (l : list ty) :
  ∃ r, reduce_from (unify_pairs pyobject) acc l c = (Ok r, c) ∧
       (r = pyobject ∨ r ∈ acc :: l).
Proof.
  revert acc. induction l as [|x l IH]; intros acc; simpl.
  - exists acc. split; [done|]. right. apply list_elem_of_here.
  - unfold mbind, M_bind, bind. rewrite unify_pairs_run.
    set (acc' := match _ with None => pyobject | Some _ => _ end).
    destruct (IH acc') as (r & -> & Hr). exists r. split; [done|].
    destruct Hr as [->|Hr]; [by left|].
    apply elem_of_cons in Hr as [->|Hr].
    + subst acc'.
      destruct (if bool_decide (acc = x) then Some 0
                else type_lattice c !! (acc, x)) as [d|]; [|by left].
      right. case_bool_decide;
        [apply list_elem_of_further|]; apply list_elem_of_here.
    + right. by do 2 apply list_elem_of_further.
Qed.

(** X10. [unify_types] without a type raises the [TypeError] of [reduce];
    with at least one it returns, leaves the Context alone, and its result
    is [types.pyobject] or one of the types it was given. *)
Theorem unify_types_result (c : Ctx) :
  unify_types pyobject [] c = (Raise TypeError_reduce, c) ∧
  ∀ t l, ∃ r, unify_types pyobject (t :: l) c = (Ok r, c) ∧
              (r = pyobject ∨ r ∈ t :: l).
Proof.
  split; [done|]. intros t l. apply reduce_from_unify_pairs.
Qed.

(** X11. If no entry of the lattice promotes [types.pyobject] to another
    type, [types.pyobject] absorbs: a sequence that starts with it, or that
    starts with two distinct types the lattice does not connect, unifies to
    [types.pyobject] whatever follows. *)
Theorem unify_types_pyobject_absorbs (c : Ctx) :
  (∀ t d, type_lattice c !! (pyobject, t) = Some d → d < 0) →
  (∀ l, unify_types pyobject (pyobject :: l) c = (Ok pyobject, c)) ∧
  (∀ a b l, a ≠ b → type_lattice c !! (a, b) = None →
     unify_types pyobject (a :: b :: l) c = (Ok pyobject, c)).
Proof.
  intros Hdown.
  assert (Habs : ∀ l, reduce_from (unify_pairs pyobject) pyobject l c =
                      (Ok pyobject, c)).
  { induction l as [|x l IH]; [done|]. simpl.
    unfold mbind, M_bind, bind. rewrite unify_pairs_run.
    case_bool_decide as Heq.
    - subst x. rewrite bool_decide_eq_true_2 by lia. apply IH.
    - destruct (type_lattice c !! (pyobject, x)) as [d|] eqn:Hd; [|apply IH].
      specialize (Hdown _ _ Hd). rewrite bool_decide_eq_false_2 by lia.
      apply IH. }
  split; [apply Habs|]. intros a b l Hne Hnone.
  unfold unify_types, reduce. simpl.
  unfold mbind, M_bind, bind. rewrite unify_pairs_run.
  rewrite bool_decide_eq_false_2 by done. rewrite Hnone. apply Habs.
Qed.

(** X12. A sequence that repeats one type unifies to that type, whatever the
    lattice holds. *)
Theorem unify_types_all_equal (c : Ctx) (t : ty) (n : nat) :
  unify_types pyobject (t :: replicate n t) c = (Ok t, c).
Proof.
  unfold unify_types, reduce.
  induction n as [|n IH]; [done|]. simpl.
  unfold mbind, M_bind, bind. rewrite unify_pairs_run.
  rewrite bool_decide_eq_true_2 by done.
  rewrite bool_decide_eq_true_2 by lia. apply IH.
Qed.

End ContextTheory.

Section MatchingTheory.

Context {ty : Type} `{!EqDecision ty, !Countable ty}.
Context {cls : Type} `{!EqDecision cls, !Countable cls}.
Context {gen attr_fn : Type}.

#[local] Abbreviation Ctx := (@Context ty _ _ cls _ _ gen attr_fn).
#[local] Abbreviation Mc := (@M ty _ _ cls _ _ gen attr_fn).
#[local] Abbreviation Sig := (@Signature ty).

(** The distance [apply_case] asks for at one position: from the actual
    type to the formal one. *)
#[local] Abbreviation dist c p :=
  (if bool_decide (p.2 = p.1) then Some 0 else type_lattice c !! (p.2, p.1)).

Lemma apply_case_loop_run (c : Ctx) (pairs : list (ty * ty))
    (distances : list Z) :
  apply_case_loop pairs distances c =
    (Ok (app distances <$> mapM (λ p, dist c p) pairs), c).
Proof.
  revert distances. induction pairs as [|[formal actual] pairs IH];
    intros distances.
  - simpl. by rewrite app_nil_r.
  - cbn [apply_case_loop]. unfold mbind at 1, M_bind, bind.
    rewrite type_distance_run. cbn [mapM fst snd].
    destruct (if bool_decide (actual = formal) then Some 0
              else type_lattice c !! (actual, formal)) as [d|]; [|done].
    rewrite IH. cbn. destruct (mapM _ pairs) as [ds|]; [|done].
    cbn. by rewrite <- app_assoc.
Qed.

Lemma apply_case_run (c : Ctx) (case : Sig) (argtys : list ty) :
  apply_case case argtys [] c =
    (Ok (if bool_decide (length (args case) ≠ length argtys) then None
         else mapM (λ p, dist c p) (zip (args case) argtys)), c).
Proof.
  unfold apply_case. case_bool_decide; [done|].
  rewrite apply_case_loop_run.
  by destruct (mapM _ (zip (args case) argtys)).
Qed.

(** X13. Without keyword arguments [apply_case] never raises and leaves the
    Context alone.  A case of another arity than the call does not match;
    a case of the same arity matches exactly when every position has a
    distance from the actual to the formal type, and the tuple it returns
    holds these distances position by position. *)
Theorem apply_case_spec (c : Ctx) (case : Sig) (argtys : list ty) :
  ∃ r, apply_case case argtys [] c = (Ok r, c) ∧
    (length (args case) ≠ length argtys → r = None) ∧
    (length (args case) = length argtys →
     ∀ dists, r = Some dists ↔
       Forall2 (λ p d, type_distance p.2 p.1 c = (Ok (Some d), c))
         (zip (args case) argtys) dists).
Proof.
  rewrite apply_case_run. eexists. split; [reflexivity|]. split.
  - intros Hlen. by rewrite bool_decide_eq_true_2.
  - intros Hlen dists. rewrite bool_decide_eq_false_2 by (intros ?; done).
    rewrite mapM_Some.
    split; intros Hall; eapply Forall2_impl; try exact Hall;
      intros p d; simpl; rewrite type_distance_run; congruence.
Qed.

(** X14. A case applied to exactly its own parameter types matches with
    distance zero at every position, whatever the lattice holds. *)
Theorem apply_case_exact (c : Ctx) (case : Sig) :
  apply_case case (args case) [] c =
    (Ok (Some (replicate (length (args case)) 0)), c).
Proof.
  rewrite apply_case_run. rewrite bool_decide_eq_false_2 by (intros ?; done).
  f_equal. f_equal. apply mapM_Some.
  induction (args case) as [|t l IH]; simpl; [constructor|].
  constructor; [|done]. simpl. by rewrite bool_decide_eq_true_2.
Qed.

(** What [_find_compatible_definitions] makes of one case. *)
#[local] Abbreviation upcast_of c argtys case :=
  (match (apply_case case argtys [] c).1 with
   | Ok (Some dists) =>
       if _uses_downcast dists then None else Some (sum dists, case)
   | _ => None
   end).

#[local] Abbreviation downcast_of c argtys case :=
  (match (apply_case case argtys [] c).1 with
   | Ok (Some dists) =>
       if _uses_downcast dists then Some (dists, case) else None
   | _ => None
   end).

Lemma _find_compatible_definitions_loop_run (c : Ctx) (cases : list Sig)
    (argtys : list ty) (upcast : list (Z * Sig))
    (downcast : list (list Z * Sig)) :
  _find_compatible_definitions_loop cases argtys [] upcast downcast c =
    (Ok (upcast ++ omap (λ case, upcast_of c argtys case) cases,
         downcast ++ omap (λ case, downcast_of c argtys case) cases), c).
Proof.
  revert upcast downcast. induction cases as [|case cases IH];
    intros upcast downcast.
  - simpl. by rewrite !app_nil_r.
  - cbn [_find_compatible_definitions_loop omap list_omap].
    unfold mbind at 1, M_bind, bind.
    rewrite apply_case_run. cbn [fst].
    destruct (if bool_decide (length (args case) ≠ length argtys) then None
              else mapM (λ p, dist c p) (zip (args case) argtys))
      as [dists|]; [|apply IH].
    destruct (_uses_downcast dists); rewrite IH; by rewrite <- app_assoc.
Qed.

Lemma _find_compatible_definitions_run (c : Ctx) (cases : list Sig)
    (argtys : list ty) :
  _find_compatible_definitions cases argtys [] c =
    (Ok (omap (λ case, upcast_of c argtys case) cases,
         omap (λ case, downcast_of c argtys case) cases), c).
Proof.
  unfold _find_compatible_definitions.
  by rewrite _find_compatible_definitions_loop_run.
Qed.

(** X15. Without keyword arguments [_find_compatible_definitions] never
    raises and leaves the Context alone; it sorts the cases, in their order,
    into the two lists: a matching case without a negative distance goes to
    [upcast] with the sum of its distances, a matching case with a negative
    distance goes to [downcast] with its distance tuple, and a case that
    does not match goes to neither. *)
Theorem find_compatible_definitions_spec (c : Ctx) (cases : list Sig)
    (argtys : list ty) :
  _find_compatible_definitions cases argtys [] c =
    (Ok (omap (λ case, upcast_of c argtys case) cases,
         omap (λ case, downcast_of c argtys case) cases), c).
Proof. apply _find_compatible_definitions_run. Qed.

(** An entry of either list comes from a case of the template that matched. *)
Lemma upcast_entry (c : Ctx) (cases : list Sig) (argtys : list ty)
    (e : Z * Sig) :
  e ∈ omap (λ case, upcast_of c argtys case) cases →
  e.2 ∈ cases ∧
  ∃ dists, apply_case e.2 argtys [] c = (Ok (Some dists), c) ∧
           _uses_downcast dists = false ∧ e.1 = sum dists.
Proof.
  intros (case & Hcase & He)%list_elem_of_omap.
  rewrite apply_case_run in He. cbn [fst] in He.
  destruct (if bool_decide (length (args case) ≠ length argtys) then None
            else mapM (λ p, dist c p) (zip (args case) argtys))
    as [dists|] eqn:Hm; [|done].
  destruct (_uses_downcast dists) eqn:Hup; [done|].
  simplify_eq. cbn [fst snd]. split; [done|]. exists dists.
  by rewrite apply_case_run, Hm.
Qed.

Lemma downcast_entry (c : Ctx) (cases : list Sig) (argtys : list ty)
    (e : list Z * Sig) :
  e ∈ omap (λ case, downcast_of c argtys case) cases →
  e.2 ∈ cases ∧ apply_case e.2 argtys [] c = (Ok (Some e.1), c) ∧
  _uses_downcast e.1 = true.
Proof.
  intros (case & Hcase & He)%list_elem_of_omap.
  rewrite apply_case_run in He. cbn [fst] in He.
  destruct (if bool_decide (length (args case) ≠ length argtys) then None
            else mapM (λ p, dist c p) (zip (args case) argtys))
    as [dists|] eqn:Hm; [|done].
  destruct (_uses_downcast dists) eqn:Hup; [|done].
  simplify_eq. cbn [fst snd]. by rewrite apply_case_run, Hm.
Qed.

Lemma apply_case_length (c : Ctx) (case : Sig) (argtys : list ty)
    (dists : list Z) :
  apply_case case argtys [] c = (Ok (Some dists), c) →
  length (args case) = length argtys ∧ length dists = length argtys.
Proof.
  rewrite apply_case_run. case_bool_decide as Hlen; [done|].
  intros Hm. assert (Hlen' : length (args case) = length argtys).
  { destruct (decide (length (args case) = length argtys)); [done|].
    by destruct Hlen. }
  split; [done|]. simplify_eq.
  match goal with H : mapM _ _ = Some _ |- _ =>
    apply mapM_Some, Forall2_length in H; rewrite <- H end.
  rewrite length_zip. lia.
Qed.

Lemma omap_disjoint_length {A B C} (f : A → option B) (g : A → option C)
    (l : list A) :
  (∀ x, f x = None ∨ g x = None) →
  (length (omap f l) + length (omap g l) <= length l)%nat.
Proof.
  intros Hfg. induction l as [|x l IH]; [done|].
  cbn [omap list_omap length].
  destruct (Hfg x) as [-> | ->]; [destruct (g x) | destruct (f x)];
    cbn [length]; lia.
Qed.

(** X16. What the two lists hold: every [upcast] entry is a case of the
    template of the call's arity, with a sum that is not negative; every
    [downcast] entry is a case of the template with one distance per
    argument and a cost of at least one; and the two lists together are no
    longer than the case list. *)
Theorem find_compatible_definitions_entries (c : Ctx) (cases : list Sig)
    (argtys : list ty) (upcast : list (Z * Sig))
    (downcast : list (list Z * Sig)) :
  _find_compatible_definitions cases argtys [] c = (Ok (upcast, downcast), c) →
  (∀ e, e ∈ upcast →
     e.2 ∈ cases ∧ length (args e.2) = length argtys ∧ 0 <= e.1) ∧
  (∀ e, e ∈ downcast →
     e.2 ∈ cases ∧ length e.1 = length argtys ∧ 1 <= _sum_downcast e.1) ∧
  (length upcast + length downcast <= length cases)%nat.
Proof.
  rewrite _find_compatible_definitions_run. intros [= <- <-].
  split; [|split].
  - intros e He. destruct (upcast_entry _ _ _ _ He)
      as (Hin & dists & Hrun & Hup & Hsum).
    split; [done|]. split; [by eapply apply_case_length|].
    rewrite Hsum. by apply sum_nonneg.
  - intros e He. destruct (downcast_entry _ _ _ _ He) as (Hin & Hrun & Hdown).
    split; [done|]. split; [by eapply apply_case_length|].
    by apply _sum_downcast_pos.
  - apply omap_disjoint_length. intros case.
    match goal with
    | |- context [match ?r with Ok _ => _ | Raise _ => _ end] =>
        destruct r as [[dists|]|]
    end; [|by left..].
    destruct (_uses_downcast dists); [by left | by right].
Qed.

End MatchingTheory.

Section SelectionTheory.

Context {ty : Type} `{!EqDecision ty, !Countable ty}.
Context {cls : Type}.

Variable maxint : Z.
Variable default_lt : @Signature ty → @Signature ty → bool.

#[local] Abbreviation Exn := (@exn ty cls).
#[local] Abbreviation Sig := (@Signature ty).

(** [_select_best_upcast] on two candidates or more. *)
Lemma _select_best_upcast_run (upcast : list (Z * Sig)) :
  (2 <= length upcast)%nat →
  (_select_best_upcast default_lt upcast : Res Exn _) =
    (first ← min default_lt upcast;
     upcast' ← remove first upcast;
     second ← min default_lt upcast';
     if bool_decide (first.1 < second.1) then Ok first.2
     else Raise (TypeError_Ambiguous [first.2; second.2])).
Proof.
  destruct upcast as [|x [|y l]]; simpl; intros Hlen; try lia. done.
Qed.

Lemma min_run (l : list (Z * Sig)) :
  l ≠ [] →
  ∃ m, (min default_lt l : Res Exn _) = Ok m ∧ m ∈ l ∧ ∀ e, e ∈ l → m.1 <= e.1.
Proof.
  destruct l as [|x l]; [done|]. intros _.
  exists (min_from default_lt x l). split; [done|].
  split; [apply min_from_elem | intros e He; by apply min_from_least].
Qed.

(** [remove] passes over items of another sum. *)
Lemma remove_first_match (v : Z * Sig) (l1 l2 : list (Z * Sig)) :
  (∀ e, e ∈ l1 → e.1 ≠ v.1) →
  (remove v (l1 ++ v :: l2) : Res Exn _) = Ok (l1 ++ l2).
Proof.
  intros Hl1. induction l1 as [|x l1 IH]; simpl.
  - by rewrite tuple_eq_refl.
  - destruct (tuple_eq x v) eqn:Hx.
    + apply tuple_eq_fst in Hx. destruct (Hl1 x); [apply list_elem_of_here|done].
    + rewrite IH; [done|]. intros e He. apply Hl1. by apply list_elem_of_further.
Qed.

(** X17. A candidate whose sum is strictly below the sum of every other
    candidate of the upcast list is the one returned, wherever it stands in
    the list and however Python orders the cases themselves. *)
Theorem select_best_upcast_unique_least (l1 l2 : list (Z * Sig))
    (c : Z * Sig) :
  (∀ e, e ∈ l1 ++ l2 → c.1 < e.1) →
  (_select_best_upcast default_lt (l1 ++ c :: l2) : Res Exn _) = Ok c.2.
Proof.
  intros Hleast.
  destruct (decide (l1 ++ l2 = [])) as [Hnil|Hrest].
  { apply app_eq_nil in Hnil as [-> ->]. done. }
  rewrite _select_best_upcast_run.
  2: { rewrite length_app. simpl.
       destruct l1, l2; simpl in *; try done; lia. }
  destruct (min_run (l1 ++ c :: l2)) as (first & -> & Hin & Hmin).
  { by destruct l1. }
  assert (first = c) as ->.
  { apply elem_of_app in Hin as [Hin|Hin].
    - pose proof (Hleast first ltac:(apply elem_of_app; by left)).
      pose proof (Hmin c ltac:(apply elem_of_app; right; apply list_elem_of_here)).
      lia.
    - apply elem_of_cons in Hin as [->|Hin]; [done|].
      pose proof (Hleast first ltac:(apply elem_of_app; by right)).
      pose proof (Hmin c ltac:(apply elem_of_app; right; apply list_elem_of_here)).
      lia. }
  cbn [mbind Res_mbind Res_bind].
  rewrite remove_first_match.
  2: { intros e He. pose proof (Hleast e ltac:(apply elem_of_app; by left)). lia. }
  cbn [mbind Res_mbind Res_bind].
  destruct (min_run (l1 ++ l2) Hrest) as (second & -> & Hin2 & _).
  cbn [mbind Res_mbind Res_bind].
  specialize (Hleast second Hin2). by rewrite bool_decide_eq_true_2.
Qed.

(** X18. Two candidates at the least sum of the upcast list are never
    decided between: the ambiguity error is raised, naming two candidates of
    that sum, however Python orders the cases themselves. *)
Theorem select_best_upcast_tie (l1 l2 l3 : list (Z * Sig)) (a b : Z * Sig) :
  let upcast := l1 ++ a :: l2 ++ b :: l3 in
  a.1 = b.1 →
  (∀ e, e ∈ upcast → a.1 <= e.1) →
  ∃ first second,
    first ∈ upcast ∧ second ∈ upcast ∧ first.1 = a.1 ∧ second.1 = a.1 ∧
    (_select_best_upcast default_lt upcast : Res Exn _) =
      Raise (TypeError_Ambiguous [first.2; second.2]).
Proof.
  intros upcast Hab Hleast.
  assert (Hcount : (2 <= length (filter (λ e, e.1 = a.1) upcast))%nat).
  { unfold upcast. rewrite filter_app, filter_cons, decide_True by done.
    rewrite filter_app, filter_cons, decide_True by done.
    rewrite length_app. cbn [length]. rewrite length_app. cbn [length]. lia. }
  rewrite _select_best_upcast_run.
  2: { unfold upcast. rewrite length_app. cbn [length].
       rewrite length_app. cbn [length]. lia. }
  destruct (min_run upcast) as (first & -> & Hin & Hmin).
  { unfold upcast. by destruct l1. }
  assert (Hfirst : first.1 = a.1).
  { pose proof (Hleast first Hin).
    pose proof (Hmin a ltac:(unfold upcast; apply elem_of_app; right;
                             apply list_elem_of_here)).
    lia. }
  cbn [mbind Res_mbind Res_bind].
  destruct (remove_elem (cls:=cls) first upcast Hin)
    as (k1 & e & k2 & Hsplit & He & ->).
  apply tuple_eq_fst in He.
  assert (Hleft : (1 <= length (filter (λ e, e.1 = a.1) (k1 ++ k2)))%nat).
  { rewrite Hsplit in Hcount. rewrite filter_app, filter_cons in Hcount.
    rewrite decide_True in Hcount by lia.
    rewrite length_app in Hcount. cbn [length] in Hcount.
    rewrite filter_app, length_app. lia. }
  assert (Hrest : k1 ++ k2 ≠ []).
  { intros Hnil. rewrite Hnil in Hleft. simpl in Hleft. lia. }
  cbn [mbind Res_mbind Res_bind].
  destruct (min_run (k1 ++ k2) Hrest) as (second & -> & Hin2 & Hmin2).
  cbn [mbind Res_mbind Res_bind].
  assert (Hsub : second ∈ upcast).
  { rewrite Hsplit. apply elem_of_app.
    apply elem_of_app in Hin2 as [?|?];
      [by left | right; by apply list_elem_of_further]. }
  assert (Hsecond : second.1 = a.1).
  { destruct (filter (λ e, e.1 = a.1) (k1 ++ k2)) as [|w ws] eqn:Hf;
      [simpl in Hleft; lia|].
    assert (Hw : w ∈ filter (λ e, e.1 = a.1) (k1 ++ k2))
      by (rewrite Hf; apply list_elem_of_here).
    apply list_elem_of_filter in Hw as [Hw1 Hw2].
    pose proof (Hmin2 w Hw2). pose proof (Hleast second Hsub). lia. }
  exists first, second. repeat (split; [done|]).
  rewrite bool_decide_eq_false_2 by lia. done.
Qed.

(** What [_select_best_downcast] can answer on a list that is not empty. *)
Lemma _select_best_downcast_cases (downcast : list (list Z * Sig)) :
  downcast ≠ [] →
  (∃ e, e ∈ downcast ∧
     (_select_best_downcast maxint downcast : Res Exn _) = Ok e.2 ∧
     ∀ e', e' ∈ downcast → _sum_downcast e.1 <= _sum_downcast e'.1) ∨
  (∃ leasts, leasts ⊆ downcast ∧ length leasts ≠ 1%nat ∧
     (_select_best_downcast maxint downcast : Res Exn _) =
       Raise (TypeError_Ambiguous (snd <$> leasts))).
Proof.
  intros Hne. destruct downcast as [|x [|y l]]; [done| |].
  { left. exists x. split; [apply list_elem_of_here|]. split; [done|].
    intros e' ->%list_elem_of_singleton. lia. }
  set (downcast := x :: y :: l).
  set (cs := (λ e : list Z * Sig, _sum_downcast e.1) <$> downcast).
  pose proof (_select_best_downcast_loop_spec downcast maxint []) as Hloop.
  cbn zeta in Hloop. fold cs in Hloop.
  pose proof (foldr_min_le maxint cs) as Hle.
  assert (Hlow : ∀ e', e' ∈ downcast →
            foldr Z.min maxint cs <= _sum_downcast e'.1).
  { intros e' He'. apply foldr_min_lower. apply list_elem_of_fmap. by exists e'. }
  set (m := foldr Z.min maxint cs) in *.
  assert (Hleasts : ∃ leasts,
            _select_best_downcast_loop downcast maxint [] = leasts ∧
            leasts ⊆ downcast ∧
            ∀ e, e ∈ leasts → _sum_downcast e.1 = m).
  { eexists. split; [exact Hloop|]. case_bool_decide.
    - split; [intros e He; by apply list_elem_of_filter in He as [_ ?]|].
      intros e He. by apply list_elem_of_filter in He as [? _].
    - split; [intros e He; by apply list_elem_of_filter in He as [_ ?]|].
      intros e He. apply list_elem_of_filter in He as [? _]. lia. }
  destruct Hleasts as (leasts & Hrun & Hsub & Hcost).
  assert (Hres : (_select_best_downcast maxint downcast : Res Exn _) =
            match leasts with
            | [e] => Ok e.2
            | _ => Raise (TypeError_Ambiguous (snd <$> leasts))
            end).
  { unfold _select_best_downcast, downcast at 1. fold downcast.
    by rewrite Hrun. }
  destruct leasts as [|e [|e2 rest]].
  - right. exists []. by repeat split.
  - left. exists e. split; [apply Hsub, list_elem_of_here|]. split; [done|].
    intros e' He'. rewrite (Hcost e) by apply list_elem_of_here. by apply Hlow.
  - right. exists (e :: e2 :: rest). by repeat split.
Qed.

(** X19. Whatever [_select_best_downcast] returns is a candidate of the
    list whose cost no other candidate undercuts; and when it raises on a
    list that is not empty, the error is the ambiguity error, and it names
    candidates of the list only, never a single one. *)
Theorem select_best_downcast_result (downcast : list (list Z * Sig)) :
  downcast ≠ [] →
  (∃ e, e ∈ downcast ∧
     (_select_best_downcast maxint downcast : Res Exn _) = Ok e.2 ∧
     ∀ e', e' ∈ downcast → _sum_downcast e.1 <= _sum_downcast e'.1) ∨
  (∃ leasts, leasts ⊆ downcast ∧ length leasts ≠ 1%nat ∧
     (_select_best_downcast maxint downcast : Res Exn _) =
       Raise (TypeError_Ambiguous (snd <$> leasts))).
Proof. apply _select_best_downcast_cases. Qed.

(** What [_select_best_upcast] can answer on a list that is not empty. *)
Lemma _select_best_upcast_cases (upcast : list (Z * Sig)) :
  upcast ≠ [] →
  (∃ e, e ∈ upcast ∧
     (_select_best_upcast default_lt upcast : Res Exn _) = Ok e.2 ∧
     ∀ e', e' ∈ upcast → e.1 <= e'.1) ∨
  (∃ e1 e2, e1 ∈ upcast ∧ e2 ∈ upcast ∧
     (_select_best_upcast default_lt upcast : Res Exn _) =
       Raise (TypeError_Ambiguous [e1.2; e2.2])).
Proof.
  intros Hne. destruct upcast as [|x [|y l]]; [done| |].
  { left. exists x. split; [apply list_elem_of_here|]. split; [done|].
    intros e' ->%list_elem_of_singleton. lia. }
  set (upcast := x :: y :: l).
  rewrite _select_best_upcast_run by (simpl; lia).
  destruct (min_run upcast) as (first & -> & Hin & Hmin); [done|].
  cbn [mbind Res_mbind Res_bind].
  destruct (remove_elem (cls:=cls) first upcast Hin)
    as (k1 & e & k2 & Hsplit & He & ->).
  assert (Hrest : k1 ++ k2 ≠ []).
  { intros Hnil. apply app_eq_nil in Hnil as [-> ->].
    unfold upcast in Hsplit. simplify_eq. }
  cbn [mbind Res_mbind Res_bind].
  destruct (min_run (k1 ++ k2) Hrest) as (second & -> & Hin2 & Hmin2).
  cbn [mbind Res_mbind Res_bind].
  assert (Hsub : second ∈ upcast).
  { rewrite Hsplit. apply elem_of_app.
    apply elem_of_app in Hin2 as [?|?];
      [by left | right; by apply list_elem_of_further]. }
  case_bool_decide.
  - left. by exists first.
  - right. by exists first, second.
Qed.







(** Beyond [sys.maxint] the loop of [_select_best_downcast] collects
    nothing: with two candidates or more, all of a cost above it, the
    ambiguity error is raised without a name in it. *)
Lemma _select_best_downcast_beyond (downcast : list (list Z * Sig)) :
  (2 <= length downcast)%nat →
  (∀ e, e ∈ downcast → maxint < _sum_downcast e.1) →
  (_select_best_downcast maxint downcast : Res Exn _) =
    Raise (TypeError_Ambiguous []).
Proof.
  intros Hlen Hall.
  assert (Hloop : _select_best_downcast_loop downcast maxint [] = []).
  { rewrite _select_best_downcast_loop_spec. cbn zeta.
    set (cs := (λ e : list Z * Sig, _sum_downcast e.1) <$> downcast).
    pose proof (foldr_min_le maxint cs) as Hle.
    assert (Hm : foldr Z.min maxint cs = maxint).
    { destruct (foldr_min_attained maxint cs) as [Hd|Hin]; [done|].
      apply list_elem_of_fmap in Hin as (e & He & Hin).
      specialize (Hall e Hin). lia. }
    rewrite Hm, bool_decide_eq_false_2 by lia. cbn [app].
    clear Hlen cs Hle Hm.
    induction downcast as [|e l IH]; [done|].
    rewrite filter_cons, decide_False.
    - apply IH. intros e' He'. apply Hall. by apply list_elem_of_further.
    - specialize (Hall e ltac:(apply list_elem_of_here)). lia. }
  destruct downcast as [|x [|y l]]; simpl in Hlen; try lia.
  unfold _select_best_downcast. by rewrite Hloop.
Qed.

End SelectionTheory.

Section ApplyTheory.

Context {ty : Type} `{!EqDecision ty, !Countable ty}.
Context {cls : Type} `{!EqDecision cls, !Countable cls}.
Context {gen attr_fn : Type}.

Variable maxint : Z.
Variable default_lt : @Signature ty → @Signature ty → bool.

#[local] Abbreviation Ctx := (@Context ty _ _ cls _ _ gen attr_fn).
#[local] Abbreviation FT := (@FunctionTemplate ty cls gen).
#[local] Abbreviation Mc := (@M ty _ _ cls _ _ gen attr_fn).
#[local] Abbreviation Sig := (@Signature ty).
#[local] Abbreviation Exn := (@exn ty cls).

Variable run_generic :
  gen → FT → list ty → list (string * ty) → Mc (option Sig).

#[local] Abbreviation upcast_of c argtys case :=
  (match (apply_case case argtys [] c).1 with
   | Ok (Some dists) =>
       if _uses_downcast dists then None else Some (sum dists, case)
   | _ => None
   end).

#[local] Abbreviation downcast_of c argtys case :=
  (match (apply_case case argtys [] c).1 with
   | Ok (Some dists) =>
       if _uses_downcast dists then Some (dists, case) else None
   | _ => None
   end).

(** [apply] on a template with cases and no keyword arguments: the two
    phases one after the other. *)
Lemma apply_run (c : Ctx) (self : FT) (case : Sig) (cases' : list Sig)
    (argtys : list ty) :
  cases self = Some (case :: cases') →
  apply maxint default_lt run_generic self argtys [] c =
    (_select_best_definition maxint default_lt
       (omap (λ s, upcast_of c argtys s) (case :: cases'))
       (omap (λ s, downcast_of c argtys s) (case :: cases')), c).
Proof.
  intros Hcases. unfold apply. rewrite Hcases.
  unfold mbind at 1, M_bind, bind.
  by rewrite _find_compatible_definitions_run.
Qed.

Lemma omap_nil_iff {A B} (f : A → option B) (l : list A) :
  omap f l = [] ↔ ∀ x, x ∈ l → f x = None.
Proof.
  induction l as [|x l IH]; cbn [omap list_omap].
  - split; [intros _ y Hy; by apply elem_of_nil in Hy | done].
  - destruct (f x) as [y|] eqn:Hfx.
    + split; [done|]. intros Hall.
      specialize (Hall x ltac:(apply list_elem_of_here)). congruence.
    + rewrite IH. split.
      * intros Hall y Hy. apply elem_of_cons in Hy as [->|Hy]; [done|by apply Hall].
      * intros Hall y Hy. apply Hall. by apply list_elem_of_further.
Qed.

(** X20. What [apply] can answer for a template with cases, called without
    keyword arguments; the Context is left alone in every case.  It returns
    [None]; or it returns one of the template's cases, of the call's arity
    and matching the argument types; or it raises the ambiguity error, and
    every candidate the error names is one of the template's cases.  No other
    error comes out of it. *)
Theorem apply_sound (c : Ctx) (self : FT) (case : Sig) (cases' : list Sig)
    (argtys : list ty) :
  cases self = Some (case :: cases') →
  ∃ r, apply maxint default_lt run_generic self argtys [] c = (r, c) ∧
    match r with
    | Ok None => True
    | Ok (Some s) =>
        s ∈ case :: cases' ∧ length (args s) = length argtys ∧
        ∃ dists, apply_case s argtys [] c = (Ok (Some dists), c)
    | Raise (TypeError_Ambiguous named) => named ⊆ case :: cases'
    | Raise _ => False
    end.
Proof.
  intros Hcases. rewrite (apply_run c self case cases') by done.
  eexists. split; [reflexivity|].
  set (upcast := omap _ (case :: cases')).
  set (downcast := omap _ (case :: cases')).
  unfold _select_best_definition.
  destruct upcast as [|u upcast'] eqn:Hup.
  - destruct downcast as [|d downcast'] eqn:Hdown; [done|].
    destruct (_select_best_downcast_cases (cls:=cls) maxint (d :: downcast'))
      as [(e & He & -> & _)|(leasts & Hsub & _ & ->)]; [done| |].
    + cbn [mbind Res_mbind Res_bind]. rewrite <- Hdown in He.
      destruct (downcast_entry _ _ _ _ He) as (Hin & Hrun & _).
      split; [done|]. split; [by eapply apply_case_length | by eexists].
    + cbn [mbind Res_mbind Res_bind].
      intros s (e & -> & He)%list_elem_of_fmap. apply Hsub in He.
      rewrite <- Hdown in He. by apply downcast_entry in He as [? _].
  - destruct (_select_best_upcast_cases (cls:=cls) default_lt (u :: upcast'))
      as [(e & He & -> & _)|(e1 & e2 & He1 & He2 & ->)]; [done| |].
    + cbn [mbind Res_mbind Res_bind]. rewrite <- Hup in He.
      destruct (upcast_entry _ _ _ _ He) as (Hin & dists & Hrun & _).
      split; [done|]. split; [by eapply apply_case_length | by eexists].
    + cbn [mbind Res_mbind Res_bind]. rewrite <- Hup in He1, He2.
      apply upcast_entry in He1 as [He1 _]. apply upcast_entry in He2 as [He2 _].
      intros s Hs. apply elem_of_cons in Hs as [->|Hs]; [done|].
      by apply list_elem_of_singleton in Hs as ->.
Qed.

(** X21. For a template with cases, called without keyword arguments,
    [apply] returns [None] exactly when not one of its cases matches the
    argument types. *)
Theorem apply_None_iff (c : Ctx) (self : FT) (case : Sig)
    (cases' : list Sig) (argtys : list ty) :
  cases self = Some (case :: cases') →
  apply maxint default_lt run_generic self argtys [] c = (Ok None, c) ↔
  ∀ s, s ∈ case :: cases' → apply_case s argtys [] c = (Ok None, c).
Proof.
  intros Hcases. rewrite (apply_run c self case cases') by done.
  set (upcast := omap (λ s, upcast_of c argtys s) (case :: cases')).
  set (downcast := omap (λ s, downcast_of c argtys s) (case :: cases')).
  assert (Hnone : (upcast = [] ∧ downcast = []) ↔
            ∀ s, s ∈ case :: cases' → apply_case s argtys [] c = (Ok None, c)).
  { unfold upcast, downcast. rewrite !omap_nil_iff. split.
    - intros [Hu Hd] s Hs. specialize (Hu s Hs). specialize (Hd s Hs).
      rewrite apply_case_run in Hu, Hd |- *. cbn [fst] in Hu, Hd.
      destruct (if bool_decide (length (args s) ≠ length argtys) then None
                else mapM _ (zip (args s) argtys)) as [dists|]; [|done].
      by destruct (_uses_downcast dists).
    - intros Hall. split; intros s Hs; by rewrite (Hall s Hs). }
  rewrite <- Hnone. unfold _select_best_definition.
  destruct upcast as [|u upcast'].
  - destruct downcast as [|d downcast']; [by split|].
    split; [|by intros [_ ?]].
    destruct (_select_best_downcast_cases (cls:=cls) maxint (d :: downcast'))
      as [(e & _ & -> & _)|(leasts & _ & _ & ->)]; done.
  - split; [|by intros [? _]].
    destruct (_select_best_upcast_cases (cls:=cls) default_lt (u :: upcast'))
      as [(e & _ & -> & _)|(e1 & e2 & _ & _ & ->)]; done.
Qed.

(** X22. A case that needs a demotion is never chosen while some case
    matches by promotion alone: if a case of the template matches without a
    negative distance, every signature [apply] returns matches without a
    negative distance too, and its distances sum to no more than those of
    that case. *)
Theorem apply_prefers_upcast (c : Ctx) (self : FT) (case : Sig)
    (cases' : list Sig) (argtys : list ty) (s0 : Sig) (d0 : list Z) :
  cases self = Some (case :: cases') →
  s0 ∈ case :: cases' →
  apply_case s0 argtys [] c = (Ok (Some d0), c) →
  _uses_downcast d0 = false →
  ∀ s, apply maxint default_lt run_generic self argtys [] c = (Ok (Some s), c) →
    ∃ d, apply_case s argtys [] c = (Ok (Some d), c) ∧
         _uses_downcast d = false ∧ sum d <= sum d0.
Proof.
  intros Hcases Hs0 Hrun0 Hup0 s.
  rewrite (apply_run c self case cases') by done.
  set (upcast := omap (λ s, upcast_of c argtys s) (case :: cases')).
  assert (Hin0 : (sum d0, s0) ∈ upcast).
  { apply list_elem_of_omap. exists s0. split; [done|].
    rewrite Hrun0. cbn [fst]. by rewrite Hup0. }
  unfold _select_best_definition.
  destruct upcast as [|u upcast'] eqn:Hup; [by apply elem_of_nil in Hin0|].
  destruct (_select_best_upcast_cases (cls:=cls) default_lt (u :: upcast'))
    as [(e & He & -> & Hleast)|(e1 & e2 & _ & _ & ->)]; [done| |done].
  cbn [mbind Res_mbind Res_bind]. intros [= <-].
  specialize (Hleast _ Hin0). cbn [fst] in Hleast.
  rewrite <- Hup in He.
  destruct (upcast_entry _ _ _ _ He) as (_ & d & Hrun & Hnoneg & Hsum).
  exists d. split; [done|]. split; [done|]. lia.
Qed.

(** ** Selection, as [apply] runs it *)



(** The downcast list of the matching phase: the cases that match with some
    distance below zero, each with its distance tuple. *)
Lemma downcast_member (c : Ctx) (cases_ : list Sig) (argtys : list ty)
    (e : list Z * Sig) :
  e ∈ omap (λ s, downcast_of c argtys s) cases_ ↔
  e.2 ∈ cases_ ∧ apply_case e.2 argtys [] c = (Ok (Some e.1), c) ∧
  Exists (λ d, d < 0) e.1.
Proof.
  rewrite Exists_exists, <- _uses_downcast_spec. split.
  - apply downcast_entry.
  - intros (Hin & Hrun & Hdown).
    apply list_elem_of_omap. exists e.2. split; [done|].
    rewrite Hrun. cbn [fst]. rewrite Hdown. by destruct e.
Qed.

(** [apply] on a template with cases, from the two lists of the matching
    phase on. *)
Lemma apply_select (c : Ctx) (self : FT) (case : Sig) (cases' : list Sig)
    (argtys : list ty) (upcast : list (Z * Sig))
    (downcast : list (list Z * Sig)) :
  cases self = Some (case :: cases') →
  _find_compatible_definitions (case :: cases') argtys [] c =
    (Ok (upcast, downcast), c) →
  apply maxint default_lt run_generic self argtys [] c =
    (_select_best_definition maxint default_lt upcast downcast, c).
Proof.
  intros Hcases Hfind. unfold apply. rewrite Hcases.
  unfold mbind at 1, M_bind, bind. by rewrite Hfind.
Qed.


(** X29. Take a template with cases, called without keyword arguments, whose
    matching phase leaves no upcast candidate and a downcast list that is not
    empty; the list holds the cases that match with some distance below zero,
    each with its distance tuple, and a candidate's cost is the sum of the
    absolute values of its negative distances only.  With one candidate,
    [apply] returns it, whatever its cost.  With more, let [m] be the least
    cost: when [m] does not exceed [sys.maxint], a single candidate of cost
    [m] is returned and two or more raise the ambiguity error, naming all of
    them in list order; when [m] exceeds [sys.maxint], the ambiguity error is
    raised and names no candidate. *)
Theorem apply_downcast_selection (c : Ctx) (self : FT) (case : Sig)
    (cases' : list Sig) (argtys : list ty)
    (downcast : list (list Z * Sig)) :
  cases self = Some (case :: cases') →
  _find_compatible_definitions (case :: cases') argtys [] c =
    (Ok ([], downcast), c) →
  downcast ≠ [] →
  (∀ e, e ∈ downcast ↔
     e.2 ∈ case :: cases' ∧
     apply_case e.2 argtys [] c = (Ok (Some e.1), c) ∧
     Exists (λ d, d < 0) e.1) ∧
  (∀ dists, _sum_downcast dists =
     foldr Z.add 0 (Z.abs <$> filter (λ d, d < 0) dists)) ∧
  (∀ x, downcast = [x] →
     apply maxint default_lt run_generic self argtys [] c =
       (Ok (Some x.2), c)) ∧
  (∀ x y l m, downcast = x :: y :: l →
     (∃ e, e ∈ downcast ∧ _sum_downcast e.1 = m) →
     (∀ e, e ∈ downcast → m <= _sum_downcast e.1) →
     let leasts := filter (λ e, _sum_downcast e.1 = m) downcast in
     (m <= maxint →
        (∀ e, leasts = [e] →
           apply maxint default_lt run_generic self argtys [] c =
             (Ok (Some e.2), c)) ∧
        (length leasts ≠ 1%nat →
           apply maxint default_lt run_generic self argtys [] c =
             (Raise (TypeError_Ambiguous (snd <$> leasts)), c))) ∧
     (maxint < m →
        apply maxint default_lt run_generic self argtys [] c =
          (Raise (TypeError_Ambiguous []), c))).
Proof.
  intros Hcases Hfind Hne.
  pose proof (apply_select c self case cases' argtys [] downcast
                Hcases Hfind) as Happly.
  pose proof (_find_compatible_definitions_run c (case :: cases') argtys)
    as Hlists.
  rewrite Hfind in Hlists.
  assert (Hdown : downcast =
            omap (λ s, downcast_of c argtys s) (case :: cases'))
    by congruence.
  clear Hlists. split; [|split; [|split]].
  - intros e. rewrite Hdown. apply downcast_member.
  - intros dists.
    by destruct (_select_best_downcast_steps (cls:=cls) maxint
                   ([], case) ([], case) [] 0) as [Hcost _].
  - intros x ->. by rewrite Happly.
  - intros x y l m Heq Hex Hleast leasts. subst leasts. rewrite Heq in *.
    destruct (_select_best_downcast_steps (cls:=cls) maxint x y l m)
      as (_ & _ & Hmany).
    split.
    + intros Hmax. destruct (Hmany Hex Hleast Hmax) as (_ & Hone & Htie).
      split.
      * intros e He. rewrite Happly. cbn [_select_best_definition].
        by rewrite (Hone e He).
      * intros Hlen. rewrite Happly. cbn [_select_best_definition].
        by rewrite (Htie Hlen).
    + intros Hmax. rewrite Happly. cbn [_select_best_definition].
      rewrite (_select_best_downcast_beyond (cls:=cls) maxint (x :: y :: l));
        [done | simpl; lia |].
      intros e He. specialize (Hleast e He). lia.
Qed.

End ApplyTheory.

Section BuiltinCatalogTheory.

Context {ty : Type} `{!EqDecision ty, !Countable ty}.
Context {cls : Type} `{!EqDecision cls, !Countable cls}.

Variable is_parametric : ty → bool.
Variable type_of : ty → cls.
Variable maxint : Z.
Variable default_lt : @Signature ty → @Signature ty → bool.

Variables range_type range_state32_type range_state64_type : ty.
Variables range_iter32_type range_iter64_type : ty.
Variables int32 int64 float32 float64 boolean none intp : ty.
Variable Array : cls.
Variable UniTuple : ty → Z → ty.
Variable getitem : ty → option (ty * ty).
Variable setitem : ty → option (ty * ty).
Variable ndim : ty → option Z.
Variable types_type_lattice : gmap (ty * ty) Z.

#[local] Abbreviation FT := (@FunctionTemplate ty cls builtin_generic).
#[local] Abbreviation AT := (@AttributeTemplate ty cls builtin_resolver).
#[local] Abbreviation Ctx :=
  (@Context ty _ _ cls _ _ builtin_generic builtin_resolver).
#[local] Abbreviation Sig := (@Signature ty).
#[local] Abbreviation run_generic :=
  (run_builtin_generic (cls:=cls) none getitem setitem).
#[local] Abbreviation run_attr :=
  (run_builtin_resolver (cls:=cls) intp UniTuple ndim).
#[local] Abbreviation builtins :=
  (BUILTINS (cls:=cls) range_type range_state32_type range_state64_type
     range_iter32_type range_iter64_type int32 int64 float32 float64 boolean).
#[local] Abbreviation init :=
  (Context_init range_type range_state32_type range_state64_type
     range_iter32_type range_iter64_type int32 int64 float32 float64 boolean
     Array types_type_lattice).

(** ** The builtin [generic] methods *)

(** X23. [GetItem.generic] on a base type that has [getitem]: called with the
    base and one index type it returns the signature made of what
    [base.getitem()] gives, with the declared index type in it, as soon as the
    lattice has any distance from the actual index type to the declared one,
    a negative one included; without such a distance, and with any other
    number of arguments, it returns [None].  Without arguments it raises
    [IndexError], and on a base type without [getitem]
    [NotImplementedError]. *)
Theorem GetItem_generic_spec (c : Ctx) (self : FT) (base : ty) :
  run_generic GetItem_generic self [] [] c = (Raise IndexError, c) ∧
  (getitem base = None → ∀ rest,
     run_generic GetItem_generic self (base :: rest) [] c =
       (Raise (NotImplementedError None), c)) ∧
  (∀ retty indty, getitem base = Some (retty, indty) →
     (∀ index d, type_distance index indty c = (Ok (Some d), c) →
        run_generic GetItem_generic self [base; index] [] c =
          (Ok (Some (signature retty [base; indty])), c)) ∧
     (∀ index, type_distance index indty c = (Ok None, c) →
        run_generic GetItem_generic self [base; index] [] c = (Ok None, c)) ∧
     (∀ rest, length rest ≠ 1%nat →
        run_generic GetItem_generic self (base :: rest) [] c = (Ok None, c))).
Proof.
  split; [done|]. split.
  { intros Hget rest. cbn [run_builtin_generic]. by rewrite Hget. }
  intros retty indty Hget. split; [|split].
  - intros index d Hd. cbn [run_builtin_generic]. rewrite Hget.
    unfold mbind at 1, M_bind, bind. rewrite apply_case_run.
    rewrite type_distance_run in Hd. injection Hd as Hd.
    cbn [args length zip zip_with mapM fst snd].
    rewrite bool_decide_eq_false_2 by (intros ?; done).
    rewrite (bool_decide_eq_true_2 (base = base)) by done.
    rewrite Hd. done.
  - intros index Hd. cbn [run_builtin_generic]. rewrite Hget.
    unfold mbind at 1, M_bind, bind. rewrite apply_case_run.
    rewrite type_distance_run in Hd. injection Hd as Hd.
    cbn [args length zip zip_with mapM fst snd].
    rewrite bool_decide_eq_false_2 by (intros ?; done).
    rewrite (bool_decide_eq_true_2 (base = base)) by done.
    rewrite Hd. done.
  - intros rest Hlen. cbn [run_builtin_generic]. rewrite Hget.
    unfold mbind at 1, M_bind, bind. rewrite apply_case_run.
    cbn [args length]. rewrite bool_decide_eq_true_2; [done|]. lia.
Qed.

(** X24. [resolve_setitem] on a Context that has the builtin [SetItem]
    template: for a target type that has [setitem] it returns the signature
    made of what [target.setitem()] gives, whatever the index and value types
    of the call are, the lattice not being asked; for a target type without
    [setitem] it raises [NotImplementedError]. *)
Theorem resolve_setitem_spec (c : Ctx) (target index value : ty) :
  functions c !! KStr "setitem" = Some SetItem →
  (∀ indty valty, setitem target = Some (indty, valty) →
     resolve_setitem maxint default_lt run_generic target index value c =
       (Ok (Some (signature none [target; indty; valty])), c)) ∧
  (setitem target = None →
     resolve_setitem maxint default_lt run_generic target index value c =
       (Raise (NotImplementedError None), c)).
Proof.
  intros Hreg.
  unfold resolve_setitem, resolve_function_type.
  unfold mbind, M_bind, bind, get. rewrite Hreg.
  unfold apply. cbn [cases generic SetItem run_builtin_generic].
  split; [intros indty valty -> | intros ->]; done.
Qed.

(** ** Construction of a Context *)

#[local] Abbreviation register m ft := (<[ft_key ft := ft]> m).

Lemma foldl_register_notin (fts : list FT) (m : gmap (@key ty cls) FT)
    (k : @key ty cls) :
  k ∉ ft_key <$> fts →
  foldl (λ m ft, register m ft) m fts !! k = m !! k.
Proof.
  revert m. induction fts as [|x fts IH]; intros m Hk; [done|].
  cbn [foldl]. rewrite fmap_cons in Hk.
  apply not_elem_of_cons in Hk as [Hx Hk].
  rewrite IH by done. by apply lookup_insert_ne.
Qed.

Lemma foldl_register_lookup (fts : list FT) (m : gmap (@key ty cls) FT)
    (ft : FT) :
  NoDup (ft_key <$> fts) → ft ∈ fts →
  foldl (λ m ft, register m ft) m fts !! ft_key ft = Some ft.
Proof.
  revert m. induction fts as [|x fts IH]; intros m Hnd Hft;
    [by apply elem_of_nil in Hft|].
  rewrite fmap_cons in Hnd. apply NoDup_cons in Hnd as [Hx Hnd].
  cbn [foldl]. apply elem_of_cons in Hft as [->|Hft].
  - rewrite foldl_register_notin by done. apply lookup_insert_eq.
  - by apply IH.
Qed.

Lemma foldl_register_inv (fts : list FT) (m : gmap (@key ty cls) FT)
    (k : @key ty cls) (ft : FT) :
  foldl (λ m ft, register m ft) m fts !! k = Some ft →
  (ft ∈ fts ∧ ft_key ft = k) ∨ m !! k = Some ft.
Proof.
  revert m. induction fts as [|x fts IH]; intros m Hk; [by right|].
  cbn [foldl] in Hk. apply IH in Hk as [[Hin Hkey]|Hk].
  - left. split; [by apply list_elem_of_further | done].
  - destruct (decide (ft_key x = k)) as [Heq|Hne].
    + rewrite <- Heq, lookup_insert_eq in Hk. injection Hk as ->.
      left. split; [apply list_elem_of_here | done].
    + rewrite lookup_insert_ne in Hk by done. by right.
Qed.

(** Registering templates of pairwise distinct keys, none of them taken. *)
Lemma for_each_insert_function_run (fts : list FT) (c : Ctx) :
  NoDup (ft_key <$> fts) →
  (∀ ft, ft ∈ fts → functions c !! ft_key ft = None) →
  for_each insert_function fts c =
    (Ok tt, {| type_lattice := type_lattice c;
               functions := foldl (λ m ft, register m ft) (functions c) fts;
               attributes := attributes c |}).
Proof.
  revert c. induction fts as [|x fts IH]; intros c Hnd Hfree.
  - by destruct c.
  - rewrite fmap_cons in Hnd. apply NoDup_cons in Hnd as [Hx Hnd].
    cbn [for_each]. unfold mbind at 1, M_bind, bind.
    unfold insert_function at 1. unfold mbind at 1, M_bind, bind, get.
    cbn [fst snd].
    rewrite bool_decide_eq_false_2.
    2: { rewrite (Hfree x) by apply list_elem_of_here. by intros [? ?]. }
    unfold put. rewrite IH; [done | done |].
    intros ft Hft. cbn [functions].
    rewrite lookup_insert_ne.
    + apply Hfree. by apply list_elem_of_further.
    + intros Heq. apply Hx. rewrite Heq. by apply list_elem_of_fmap_2.
Qed.

Lemma builtins_NoDup : NoDup (ft_key <$> builtins).
Proof.
  cbn. repeat (apply NoDup_cons; split;
    [intros Hin; repeat (apply elem_of_cons in Hin as [Hin|Hin];
       [discriminate Hin|]); by apply elem_of_nil in Hin|]).
  apply NoDup_nil_2.
Qed.

Lemma Context_init_run (tl : option (gmap (ty * ty) Z)) :
  init tl =
    (Ok tt,
     {| type_lattice :=
          match tl with
          | Some l => if bool_decide (l = ∅) then types_type_lattice else l
          | None => types_type_lattice
          end;
        functions := foldl (λ m ft, register m ft) ∅ builtins;
        attributes := {[ KCls Array := ArrayAttribute Array ]} |}).
Proof.
  unfold Context_init, load_builtins. unfold mbind at 1, M_bind, bind.
  rewrite for_each_insert_function_run;
    [|apply builtins_NoDup | intros ft _; apply lookup_empty].
  cbn [for_each BUILTIN_ATTRS]. unfold mbind at 1, M_bind, bind.
  unfold insert_attributes. unfold mbind at 1, M_bind, bind, get.
  cbn [fst snd functions attributes type_lattice].
  rewrite bool_decide_eq_false_2; [done|].
  rewrite foldl_register_notin.
  - rewrite lookup_empty. by intros [? ?].
  - cbn. intros Hin.
    repeat (apply elem_of_cons in Hin as [Hin|Hin]; [discriminate Hin|]).
    by apply elem_of_nil in Hin.
Qed.

(** X25. [Context(type_lattice)] never raises, whatever the types of the
    catalog are: the keys of the builtin templates are pairwise distinct.
    The Context it builds has each builtin function template under its key
    and nothing else in the function registry, [ArrayAttribute] under
    [types.Array] as its only attribute template, and for lattice the one
    passed in, unless that is [None] or an empty dict, which both give
    [types.type_lattice]. *)
Theorem Context_init_spec (tl : option (gmap (ty * ty) Z)) :
  ∃ c : Ctx, init tl = (Ok tt, c) ∧
    (∀ ft, ft ∈ builtins → functions c !! ft_key ft = Some ft) ∧
    (∀ k ft, functions c !! k = Some ft → ft ∈ builtins ∧ ft_key ft = k) ∧
    attributes c = {[ KCls Array := ArrayAttribute Array ]} ∧
    type_lattice c =
      match tl with
      | Some l => if bool_decide (l = ∅) then types_type_lattice else l
      | None => types_type_lattice
      end.
Proof.
  rewrite Context_init_run. eexists. split; [reflexivity|].
  cbn [functions attributes type_lattice]. split; [|split; [|done]].
  - intros ft Hft. apply foldl_register_lookup; [apply builtins_NoDup | done].
  - intros k ft Hk. apply foldl_register_inv in Hk as [?|Hk]; [done|].
    by rewrite lookup_empty in Hk.
Qed.

(** X26. On a freshly constructed Context every parametric type of class
    [types.Array] resolves its [shape] attribute to
    [UniTuple(intp, value.ndim)] and raises [NotImplementedError] for every
    other attribute name; a type that is not parametric has no attribute at
    all there, [KeyError] being raised on it. *)
Theorem builtin_getattr (tl : option (gmap (ty * ty) Z)) (value : ty)
    (r : Res (@exn ty cls) unit) (c : Ctx) :
  init tl = (r, c) →
  (is_parametric value = true → type_of value = Array →
     (∀ n, ndim value = Some n →
        resolve_getattr is_parametric type_of run_attr value "shape" c =
          (Ok (UniTuple intp n), c)) ∧
     (∀ attr, attr ≠ "shape" →
        resolve_getattr is_parametric type_of run_attr value attr c =
          (Raise (NotImplementedError (Some (value, attr))), c))) ∧
  (is_parametric value = false → ∀ attr,
     resolve_getattr is_parametric type_of run_attr value attr c =
       (Raise (KeyError (KTy value)), c)).
Proof.
  rewrite Context_init_run. intros [= <- Hc].
  assert (Hexact : attributes c !! KTy value = None).
  { rewrite <- Hc. cbn [attributes]. by apply lookup_singleton_ne. }
  split.
  - intros Hpar Hcls.
    assert (Hclass : attributes c !! KCls (type_of value) =
                       Some (ArrayAttribute Array)).
    { rewrite <- Hc. cbn [attributes]. rewrite Hcls. apply lookup_singleton_eq. }
    split.
    + intros n Hn. unfold resolve_getattr, mbind, M_bind, bind, get.
      cbn [fst snd]. rewrite Hexact, Hpar, Hclass. cbn [mret M_ret ret].
      unfold resolve. cbn [resolvers ArrayAttribute].
      rewrite lookup_singleton_eq. cbn [run_builtin_resolver]. by rewrite Hn.
    + intros attr Hattr. unfold resolve_getattr, mbind, M_bind, bind, get.
      cbn [fst snd]. rewrite Hexact, Hpar, Hclass. cbn [mret M_ret ret].
      unfold resolve. cbn [resolvers ArrayAttribute].
      by rewrite lookup_singleton_ne.
  - intros Hpar attr. unfold resolve_getattr, mbind, M_bind, bind, get.
    cbn [fst snd]. by rewrite Hexact, Hpar.
Qed.

End BuiltinCatalogTheory.

Section UfuncTheory.

Import Ufunc.

(** X27. [_determine_dimensions] with a positive thread limit and a count
    that is not negative: the thread count is the smaller of the two, the
    block count is the count divided by the limit and rounded up, the blocks
    times the threads cover the count, and a count of zero gives no block and
    no thread. *)
Theorem determine_dimensions_covers (n max_thread : Z) :
  0 < max_thread → 0 <= n →
  ∃ block_count thread_count,
    _determine_dimensions n max_thread = Ok (block_count, thread_count) ∧
    thread_count = Z.min max_thread n ∧
    0 <= thread_count <= max_thread ∧
    n <= block_count * max_thread < n + max_thread ∧
    n <= block_count * thread_count ∧
    (n = 0 → block_count = 0 ∧ thread_count = 0).
Proof.
  intros Hmt Hn. unfold _determine_dimensions.
  rewrite bool_decide_eq_false_2 by lia.
  set (b := (n + max_thread - 1) `div` max_thread).
  exists b, (Z.min max_thread n). split; [done|]. split; [done|].
  pose proof (Z.div_mod (n + max_thread - 1) max_thread ltac:(lia)) as Hdm.
  pose proof (Z.mod_pos_bound (n + max_thread - 1) max_thread Hmt) as Hr.
  fold b in Hdm.
  assert (Hceil : n <= b * max_thread < n + max_thread) by lia.
  split; [lia|]. split; [done|]. split.
  - destruct (Z.min_spec max_thread n) as [[_ ->]|[Hle ->]]; [lia|].
    destruct (decide (n = 0)) as [->|Hn0]; [lia|].
    assert (1 <= b) by nia. nia.
  - intros ->. split; [nia | lia].
Qed.

(** The leading length of an argument that is not broadcast along its first
    axis. *)
#[local] Abbreviation leading a :=
  (match strides a, shape a with
   | s0 :: _, n :: _ => if bool_decide (s0 ≠ 0) then Some n else None
   | _, _ => None
   end).

Lemma _arguments_requirement_collect_run (i : nat) (args : list array)
    (array_shapes : list (nat * Z)) :
  Forall (λ a, strides a ≠ [] ∧ shape a ≠ []) args →
  ∃ found, _arguments_requirement_collect i args array_shapes =
             Ok (array_shapes ++ found) ∧
           snd <$> found = omap (λ a, leading a) args.
Proof.
  intros Hall. revert i array_shapes.
  induction Hall as [|a args [Hs Hn] Hall IH]; intros i array_shapes.
  - exists []. by rewrite app_nil_r.
  - cbn [_arguments_requirement_collect omap list_omap].
    destruct (strides a) as [|s0 ss] eqn:Es; [congruence|].
    destruct (shape a) as [|n ns] eqn:En; [congruence|].
    cbn [item0 mbind error_bind Res_bind].
    case_bool_decide.
    + destruct (IH (S i) (array_shapes ++ [(i, n)])) as (found & -> & Hfound).
      exists ((i, n) :: found). rewrite <- app_assoc. split; [done|].
      by rewrite fmap_cons, Hfound.
    + apply IH.
Qed.

Lemma _arguments_requirement_check_run (ms : Z) (rest : list (nat * Z)) :
  _arguments_requirement_check ms rest =
    if bool_decide (Forall (λ s, s = ms) (snd <$> rest)) then Ok tt
    else Raise (TypeError "not enough arguments for format string").
Proof.
  induction rest as [|[i s] rest IH]; cbn [_arguments_requirement_check].
  - by rewrite bool_decide_eq_true_2 by constructor.
  - rewrite fmap_cons. cbn [snd].
    destruct (decide (ms = s)) as [<-|Hne].
    + rewrite (bool_decide_eq_false_2 (ms ≠ ms)) by (intros ?; done).
      rewrite IH.
      destruct (decide (Forall (λ s, s = ms) (snd <$> rest))) as [Hall|Hall].
      * rewrite !bool_decide_eq_true_2; [done | by constructor | done].
      * rewrite !bool_decide_eq_false_2; [done | | done].
        by intros [_ ?]%Forall_cons_1.
    + rewrite (bool_decide_eq_true_2 (ms ≠ s)) by done.
      rewrite bool_decide_eq_false_2; [done|].
      intros [? _]%Forall_cons_1. congruence.
Qed.

(** X28. [_arguments_requirement] on arrays of at least one dimension looks
    at the leading lengths of the arguments whose first stride is not zero:
    with no such argument it raises [IndexError]; when all of them have the
    leading length of the first it returns; and when one differs it raises
    the [TypeError] of its own message formatting.  On no input at all does
    it raise a [ValueError]. *)
Theorem arguments_requirement_spec (args : list array) :
  (∀ msg, _arguments_requirement args ≠ Raise (ValueError msg)) ∧
  (Forall (λ a, strides a ≠ [] ∧ shape a ≠ []) args →
   (omap (λ a, leading a) args = [] →
      _arguments_requirement args = Raise IndexError) ∧
   (∀ ms rest, omap (λ a, leading a) args = ms :: rest →
      (Forall (λ s, s = ms) rest → _arguments_requirement args = Ok tt) ∧
      (¬ Forall (λ s, s = ms) rest →
         _arguments_requirement args =
           Raise (TypeError "not enough arguments for format string")))).
Proof.
  split.
  - intros msg. unfold _arguments_requirement.
    assert (Hcollect : ∀ i acc,
              _arguments_requirement_collect i args acc ≠ Raise (ValueError msg)).
    { induction args as [|a args IH]; intros i acc; [done|].
      cbn [_arguments_requirement_collect].
      destruct (strides a) as [|s0 ss]; [done|].
      cbn [item0 mbind error_bind Res_bind].
      case_bool_decide; [|apply IH].
      destruct (shape a) as [|n ns]; [done|].
      cbn [item0 mbind error_bind Res_bind]. apply IH. }
    specialize (Hcollect 0%nat []). revert Hcollect.
    destruct (_arguments_requirement_collect 0 args []) as [found|e];
      intros Hcollect; cbn [mbind error_bind Res_bind];
      [|intros [= ->]; by apply Hcollect].
    destruct found as [|[i ms] rest]; [done|].
    rewrite _arguments_requirement_check_run. by case_bool_decide.
  - intros Hall. unfold _arguments_requirement.
    destruct (_arguments_requirement_collect_run 0 args [] Hall)
      as (found & -> & Hfound).
    cbn [app mbind error_bind Res_bind]. split.
    + intros Hnil. rewrite Hnil in Hfound.
      apply fmap_nil_inv in Hfound as ->. done.
    + intros ms rest Hlens. rewrite Hlens in Hfound.
      destruct found as [|[i ms'] found]; [done|].
      rewrite fmap_cons in Hfound. injection Hfound as -> Hrest.
      rewrite _arguments_requirement_check_run, Hrest.
      split; intros Hrest'.
      * by rewrite bool_decide_eq_true_2.
      * by rewrite bool_decide_eq_false_2.
Qed.

End UfuncTheory.

(** * The further properties on the catalog *)

(** X1 on a domain of three types and a type outside it. *)
Lemma type_distance_domain_defined_witness :
  (_type_distance ["int32"; "int64"; "float64"] "int32" "boolean"
     : Res (@exn string string) _) = Ok None.
Proof.
  destruct (type_distance_domain_defined (cls:=string)
              ["int32"; "int64"; "float64"] "int32" "boolean") as [_ Hnone].
  apply Hnone. right. intros Hin.
  repeat (apply elem_of_cons in Hin as [Hin|Hin]; [discriminate Hin|]).
  by apply elem_of_nil in Hin.
Defined.

(** X2 on the first and the last of three types. *)
Lemma type_distance_domain_antisym_witness :
  ∃ d, (_type_distance ["int32"; "int64"; "float64"] "int32" "float64"
          : Res (@exn string string) _) = Ok (Some d) ∧
       (_type_distance ["int32"; "int64"; "float64"] "float64" "int32"
          : Res (@exn string string) _) = Ok (Some (- d)) ∧
       (d = 0 ↔ "int32" = "float64") ∧
       - Z.of_nat (length ["int32"; "int64"; "float64"]) < d
         < Z.of_nat (length ["int32"; "int64"; "float64"]).
Proof.
  apply (type_distance_domain_antisym (cls:=string)
           ["int32"; "int64"; "float64"] "int32" "float64").
  - apply list_elem_of_here.
  - do 2 apply list_elem_of_further. apply list_elem_of_here.
Defined.

(** X3 along three types of a domain. *)
Lemma type_distance_domain_additive_witness :
  ∃ x y,
    (_type_distance ["int32"; "int64"; "float64"] "float64" "int32"
       : Res (@exn string string) _) = Ok (Some x) ∧
    (_type_distance ["int32"; "int64"; "float64"] "int32" "int64"
       : Res (@exn string string) _) = Ok (Some y) ∧
    (_type_distance ["int32"; "int64"; "float64"] "float64" "int64"
       : Res (@exn string string) _) = Ok (Some (x + y)).
Proof.
  apply (type_distance_domain_additive (cls:=string)
           ["int32"; "int64"; "float64"] "float64" "int32" "int64").
  - do 2 apply list_elem_of_further. apply list_elem_of_here.
  - apply list_elem_of_here.
  - apply list_elem_of_further. apply list_elem_of_here.
Defined.

(** X4 on a tuple with one demotion. *)
Lemma sum_downcast_zero_iff_witness : 1 <= _sum_downcast [-1; 2].
Proof.
  destruct (sum_downcast_zero_iff [-1; 2]) as (_ & _ & Hpos & _).
  apply Hpos. reflexivity.
Defined.

(** X5 on the catalog's Context: a new template, and a template whose key
    is taken. *)
Lemma insert_function_spec_witness :
  (∃ c', insert_function Squeeze context = (Ok tt, c') ∧
     functions c' !! ft_key Squeeze = Some Squeeze ∧
     (∀ k, k ≠ ft_key Squeeze → functions c' !! k = functions context !! k) ∧
     attributes c' = attributes context ∧
     type_lattice c' = type_lattice context) ∧
  insert_function Add context =
    (Raise (AssertionError "Duplicated function template"), context).
Proof.
  split.
  - destruct (insert_function_spec context Squeeze) as [Hfree _].
    apply Hfree. reflexivity.
  - destruct (insert_function_spec context Add) as [_ Htaken].
    apply Htaken. by eexists.
Defined.

(** X7 on the catalog's Context: a second template under [Array], and a
    template under the key of the [+] template. *)
Lemma insert_attributes_spec_witness :
  (∃ c', insert_attributes ArrayExtension context = (Ok tt, c') ∧
     attributes c' !! at_key ArrayExtension = Some ArrayExtension ∧
     (∀ k, k ≠ at_key ArrayExtension →
        attributes c' !! k = attributes context !! k) ∧
     functions c' = functions context ∧
     type_lattice c' = type_lattice context) ∧
  insert_attributes {| at_key := KStr "+"; resolvers := ∅ |} context =
    (Raise (AssertionError "Duplicated attributes template"), context).
Proof.
  split.
  - destruct (insert_attributes_spec context ArrayExtension) as [_ Hfree].
    apply Hfree. reflexivity.
  - destruct (insert_attributes_spec context
                {| at_key := KStr "+"; resolvers := ∅ |}) as [Htaken _].
    apply Htaken. by eexists.
Defined.

(** X8 on the catalog's Context: a template for [array1d] itself. *)
Lemma insert_attributes_then_getattr_witness :
  (insert_attributes
     {| at_key := KTy "array1d";
        resolvers := {[ "shape" := ArrayAttribute_resolve_shape ]} |} ≫= λ _,
   resolve_getattr is_parametric type_of run_attr "array1d" "shape") context =
    resolve run_attr
      {| at_key := KTy "array1d";
         resolvers := {[ "shape" := ArrayAttribute_resolve_shape ]} |}
      "array1d" "shape"
      {| type_lattice := type_lattice context;
         functions := functions context;
         attributes :=
           <[KTy "array1d" :=
               {| at_key := KTy "array1d";
                  resolvers := {[ "shape" := ArrayAttribute_resolve_shape ]} |}]>
             (attributes context) |}.
Proof.
  apply (insert_attributes_then_getattr is_parametric type_of run_attr context
           {| at_key := KTy "array1d";
              resolvers := {[ "shape" := ArrayAttribute_resolve_shape ]} |}
           "array1d" "shape"); reflexivity.
Defined.

(** X9 on the catalog's Context, which has a template for the class [Array]
    only: a scalar type, and an array type on a Context without templates. *)
Lemma resolve_getattr_missing_witness :
  resolve_getattr is_parametric type_of run_attr "int32" "shape" context =
    (Raise (KeyError (KTy "int32")), context) ∧
  resolve_getattr is_parametric type_of run_attr "array1d" "shape"
    steep_context =
    (Raise (KeyError (KCls "Array")), steep_context).
Proof.
  split.
  - destruct (resolve_getattr_missing is_parametric type_of run_attr
                context "int32" "shape") as [Hscalar _]; [reflexivity|].
    apply Hscalar. reflexivity.
  - destruct (resolve_getattr_missing is_parametric type_of run_attr
                steep_context "array1d" "shape") as [_ Hparam]; [reflexivity|].
    apply Hparam; reflexivity.
Defined.

(** X11 on the catalog's lattice, which has no entry from [pyobject]. *)
Lemma unify_types_pyobject_absorbs_witness :
  unify_types pyobject ["pyobject"; "int32"; "int64"] context =
    (Ok "pyobject", context) ∧
  unify_types pyobject ["boolean"; "int32"; "int64"] context =
    (Ok "pyobject", context).
Proof.
  destruct (unify_types_pyobject_absorbs pyobject context) as [Hhead Hpair].
  - intros t d Hd. change (type_lattice context) with lattice in Hd.
    unfold lattice in Hd. apply elem_of_list_to_map_2 in Hd.
    repeat (apply elem_of_cons in Hd as [Hd|Hd]; [discriminate Hd|]).
    by apply elem_of_nil in Hd.
  - split; [apply Hhead|]. apply Hpair; [discriminate | reflexivity].
Defined.

(** X13 on the [int64] case of [+] and the arguments [(int32, int64)]. *)
Lemma apply_case_spec_witness :
  apply_case (signature "int64" ["int64"; "int64"]) ["int32"; "int64"] []
    context = (Ok (Some [1; 0]), context).
Proof.
  destruct (apply_case_spec context (signature "int64" ["int64"; "int64"])
              ["int32"; "int64"]) as (r & Hrun & _ & Hsame).
  rewrite Hrun. f_equal. f_equal. apply Hsame; [reflexivity|].
  repeat constructor.
Defined.

(** X16 on the cases of [+] and the arguments [(float64, int32)]. *)
Lemma find_compatible_definitions_entries_witness :
  (∀ e, e ∈ [(3, signature "float64" ["float64"; "float64"])] →
     e.2 ∈ [signature "int32" ["int32"; "int32"];
            signature "int64" ["int64"; "int64"];
            signature "float32" ["float32"; "float32"];
            signature "float64" ["float64"; "float64"]] ∧
     length (args e.2) = length ["float64"; "int32"] ∧ 0 <= e.1) ∧
  (∀ e, e ∈ [([-3; 0], signature "int32" ["int32"; "int32"]);
             ([-2; 1], signature "int64" ["int64"; "int64"]);
             ([-1; 2], signature "float32" ["float32"; "float32"])] →
     e.2 ∈ [signature "int32" ["int32"; "int32"];
            signature "int64" ["int64"; "int64"];
            signature "float32" ["float32"; "float32"];
            signature "float64" ["float64"; "float64"]] ∧
     length e.1 = length ["float64"; "int32"] ∧ 1 <= _sum_downcast e.1) ∧
  (length [(3%Z, signature "float64" ["float64"; "float64"])] +
   length [([-3; 0]%Z, signature "int32" ["int32"; "int32"]);
           ([-2; 1]%Z, signature "int64" ["int64"; "int64"]);
           ([-1; 2]%Z, signature "float32" ["float32"; "float32"])] <=
   length [signature "int32" ["int32"; "int32"];
           signature "int64" ["int64"; "int64"];
           signature "float32" ["float32"; "float32"];
           signature "float64" ["float64"; "float64"]])%nat.
Proof.
  apply (find_compatible_definitions_entries context). reflexivity.
Defined.

(** X17 on three candidates, the cheapest standing in the middle. *)
Lemma select_best_upcast_unique_least_witness :
  (_select_best_upcast default_lt
     ([(5, signature "float64" ["float64"; "float64"])] ++
      (1, signature "int64" ["int64"; "int64"]) ::
      [(7, signature "float32" ["float32"; "float32"])])
     : Res (@exn string string) _) =
    Ok (signature "int64" ["int64"; "int64"]).
Proof.
  apply (select_best_upcast_unique_least (cls:=string) default_lt
           [(5, signature "float64" ["float64"; "float64"])]
           [(7, signature "float32" ["float32"; "float32"])]
           (1, signature "int64" ["int64"; "int64"])).
  intros e He.
  repeat (apply elem_of_cons in He as [->|He]; [simpl; lia|]).
  by apply elem_of_nil in He.
Defined.

(** X18 on three candidates, the first and the last at sum 2. *)
Lemma select_best_upcast_tie_witness :
  ∃ first second,
    first ∈ [] ++ (2, signature "int64" ["int64"; "int64"]) ::
            [(5, signature "float64" ["float64"; "float64"])] ++
            (2, signature "float32" ["float32"; "float32"]) :: [] ∧
    second ∈ [] ++ (2, signature "int64" ["int64"; "int64"]) ::
             [(5, signature "float64" ["float64"; "float64"])] ++
             (2, signature "float32" ["float32"; "float32"]) :: [] ∧
    first.1 = (2, signature "int64" ["int64"; "int64"]).1 ∧
    second.1 = (2, signature "int64" ["int64"; "int64"]).1 ∧
    (_select_best_upcast default_lt
       ([] ++ (2, signature "int64" ["int64"; "int64"]) ::
        [(5, signature "float64" ["float64"; "float64"])] ++
        (2, signature "float32" ["float32"; "float32"]) :: [])
       : Res (@exn string string) _) =
      Raise (TypeError_Ambiguous [first.2; second.2]).
Proof.
  apply (select_best_upcast_tie (cls:=string) default_lt []
           [(5, signature "float64" ["float64"; "float64"])] []
           (2, signature "int64" ["int64"; "int64"])
           (2, signature "float32" ["float32"; "float32"])).
  - reflexivity.
  - intros e He.
    repeat (apply elem_of_cons in He as [->|He]; [simpl; lia|]).
    by apply elem_of_nil in He.
Defined.

(** X19 on the downcast list of [+] applied to [(float64, int32)]. *)
Lemma select_best_downcast_result_witness :
  (∃ e, e ∈ [([-3; 0], signature "int32" ["int32"; "int32"]);
             ([-1; 2], signature "float32" ["float32"; "float32"])] ∧
     (_select_best_downcast maxint
        [([-3; 0], signature "int32" ["int32"; "int32"]);
         ([-1; 2], signature "float32" ["float32"; "float32"])]
        : Res (@exn string string) _) = Ok e.2 ∧
     ∀ e', e' ∈ [([-3; 0], signature "int32" ["int32"; "int32"]);
                 ([-1; 2], signature "float32" ["float32"; "float32"])] →
       _sum_downcast e.1 <= _sum_downcast e'.1) ∨
  (∃ leasts,
     leasts ⊆ [([-3; 0], signature "int32" ["int32"; "int32"]);
               ([-1; 2], signature "float32" ["float32"; "float32"])] ∧
     length leasts ≠ 1%nat ∧
     (_select_best_downcast maxint
        [([-3; 0], signature "int32" ["int32"; "int32"]);
         ([-1; 2], signature "float32" ["float32"; "float32"])]
        : Res (@exn string string) _) =
       Raise (TypeError_Ambiguous (snd <$> leasts))).
Proof.
  apply (select_best_downcast_result (cls:=string) maxint). discriminate.
Defined.

(** X20 on the [+] template and the arguments [(int32, int64)]. *)
Lemma apply_sound_witness :
  ∃ r, apply maxint default_lt run_generic Add ["int32"; "int64"] [] context =
         (r, context) ∧
    match r with
    | Ok None => True
    | Ok (Some s) =>
        s ∈ signature "int32" ["int32"; "int32"] ::
            [signature "int64" ["int64"; "int64"];
             signature "float32" ["float32"; "float32"];
             signature "float64" ["float64"; "float64"]] ∧
        length (args s) = length ["int32"; "int64"] ∧
        ∃ dists, apply_case s ["int32"; "int64"] [] context =
                   (Ok (Some dists), context)
    | Raise (TypeError_Ambiguous named) =>
        named ⊆ signature "int32" ["int32"; "int32"] ::
                [signature "int64" ["int64"; "int64"];
                 signature "float32" ["float32"; "float32"];
                 signature "float64" ["float64"; "float64"]]
    | Raise _ => False
    end.
Proof.
  apply (apply_sound maxint default_lt run_generic context Add). reflexivity.
Defined.

(** X21 on the [+] template and two booleans. *)
Lemma apply_None_iff_witness :
  apply maxint default_lt run_generic Add ["boolean"; "boolean"] [] context =
    (Ok None, context) ↔
  ∀ s, s ∈ signature "int32" ["int32"; "int32"] ::
           [signature "int64" ["int64"; "int64"];
            signature "float32" ["float32"; "float32"];
            signature "float64" ["float64"; "float64"]] →
    apply_case s ["boolean"; "boolean"] [] context = (Ok None, context).
Proof.
  apply (apply_None_iff maxint default_lt run_generic context Add). reflexivity.
Defined.

(** X22 on the [+] template and the arguments [(int32, int64)]: the
    [float64] case matches by promotion, and the [int64] case is returned. *)
Lemma apply_prefers_upcast_witness :
  ∃ d, apply_case (signature "int64" ["int64"; "int64"]) ["int32"; "int64"] []
         context = (Ok (Some d), context) ∧
       _uses_downcast d = false ∧ sum d <= sum [3; 2].
Proof.
  apply (apply_prefers_upcast maxint default_lt run_generic context Add
           (signature "int32" ["int32"; "int32"])
           [signature "int64" ["int64"; "int64"];
            signature "float32" ["float32"; "float32"];
            signature "float64" ["float64"; "float64"]]
           ["int32"; "int64"]
           (signature "float64" ["float64"; "float64"]) [3; 2]).
  - reflexivity.
  - do 3 apply list_elem_of_further. apply list_elem_of_here.
  - reflexivity.
  - reflexivity.
  - reflexivity.
Defined.

(** X23 on the catalog: an array indexed by [intp]. *)
Lemma GetItem_generic_spec_witness :
  run_generic GetItem_generic Add ["array1d"; "intp"] [] context =
    (Ok (Some (signature "float64" ["array1d"; "intp"])), context).
Proof.
  destruct (GetItem_generic_spec "none" getitem setitem context Add "array1d")
    as (_ & _ & Hget).
  destruct (Hget "float64" "intp") as (Hsome & _ & _); [reflexivity|].
  apply (Hsome "intp" 0). reflexivity.
Defined.

(** X24 on the catalog's Context: index and value types that no lattice
    entry relates to the declared ones. *)
Lemma resolve_setitem_spec_witness :
  resolve_setitem maxint default_lt run_generic "array2d" "boolean" "range"
    context =
    (Ok (Some (signature "none" ["array2d"; "intp"; "float64"])), context).
Proof.
  destruct (resolve_setitem_spec maxint default_lt "none" getitem setitem
              context "array2d" "boolean" "range") as [Hsome _];
    [reflexivity|].
  apply Hsome. reflexivity.
Defined.

(** X26 on the catalog's Context and a two-dimensional array type. *)
Lemma builtin_getattr_witness :
  resolve_getattr is_parametric type_of run_attr "array2d" "shape" context =
    (Ok (UniTuple "intp" 2), context) ∧
  resolve_getattr is_parametric type_of run_attr "array2d" "ndim" context =
    (Raise (NotImplementedError (Some ("array2d", "ndim"))), context).
Proof.
  destruct (builtin_getattr is_parametric type_of
              "range" "range_state32" "range_state64"
              "range_iter32" "range_iter64" "int32" "int64" "float32"
              "float64" "boolean" "intp" "Array" UniTuple ndim lattice
              None "array2d"
              (Context_init "range" "range_state32" "range_state64"
                 "range_iter32" "range_iter64" "int32" "int64" "float32"
                 "float64" "boolean" "Array" lattice None).1
              context) as [Harray _]; [apply surjective_pairing|].
  destruct Harray as [Hshape Hother]; [reflexivity | reflexivity |].
  split; [apply Hshape; reflexivity | apply Hother; discriminate].
Defined.

(** X27 on a thousand elements and blocks of 256 threads. *)
Lemma determine_dimensions_covers_witness :
  ∃ block_count thread_count,
    Ufunc._determine_dimensions 1000 256 = Ok (block_count, thread_count) ∧
    thread_count = Z.min 256 1000 ∧
    0 <= thread_count <= 256 ∧
    1000 <= block_count * 256 < 1000 + 256 ∧
    1000 <= block_count * thread_count ∧
    (1000 = 0 → block_count = 0 ∧ thread_count = 0).
Proof. apply (determine_dimensions_covers 1000 256); lia. Defined.

(** X28 on a vector of length 8, a broadcast scalar and a vector of length
    4: the lengths 8 and 4 disagree. *)
Lemma arguments_requirement_spec_witness :
  Ufunc._arguments_requirement
    [ {| Ufunc.strides := [8]; Ufunc.shape := [8] |};
      {| Ufunc.strides := [0]; Ufunc.shape := [8] |};
      {| Ufunc.strides := [8]; Ufunc.shape := [4] |} ] =
    Raise (Ufunc.TypeError "not enough arguments for format string").
Proof.
  destruct (arguments_requirement_spec
              [ {| Ufunc.strides := [8]; Ufunc.shape := [8] |};
                {| Ufunc.strides := [0]; Ufunc.shape := [8] |};
                {| Ufunc.strides := [8]; Ufunc.shape := [4] |} ])
    as [_ Hspec].
  destruct Hspec as [_ Hlens].
  - repeat constructor; discriminate.
  - destruct (Hlens 8 [4]) as [_ Hbad]; [reflexivity|].
    apply Hbad. intros Hall. apply Forall_cons_1 in Hall as [Heq _].
    discriminate Heq.
Defined.

(** X25 on the catalog: the Context that [Context()] builds has the [+]
    template under its key. *)
Lemma Context_init_spec_witness :
  functions context !! ft_key Add = Some Add.
Proof.
  destruct (Context_init_spec "range" "range_state32" "range_state64"
              "range_iter32" "range_iter64" "int32" "int64" "float32"
              "float64" "boolean" "Array" lattice None)
    as (c & Hrun & Hall & _).
  assert (Hc : context = c) by (unfold context; by rewrite Hrun).
  rewrite Hc. apply Hall.
  do 4 apply list_elem_of_further. apply list_elem_of_here.
Defined.


(** X29 on the catalog.  The [range] template applied to [(float64)]: no
    case matches by promotion, the [int32] case costs 3 and the [int64] case
    2, and the second is returned.  The template [Squeeze] under the steep
    lattice: the least cost is beyond [sys.maxint]. *)
Lemma apply_downcast_selection_witness :
  apply maxint default_lt run_generic
    (Range "range" "range_state32" "range_state64" "int32" "int64")
    ["float64"] [] context =
    (Ok (Some (signature "range_state64" ["int64"])), context) ∧
  apply maxint default_lt run_generic Squeeze ["wide"] [] steep_context =
    (Raise (TypeError_Ambiguous []), steep_context).
Proof.
  split.
  - destruct (apply_downcast_selection maxint default_lt run_generic context
                (Range "range" "range_state32" "range_state64" "int32" "int64")
                (signature "range_state32" ["int32"])
                [signature "range_state32" ["int32"; "int32"];
                 signature "range_state64" ["int64"];
                 signature "range_state64" ["int64"; "int64"]]
                ["float64"]
                [([-3], signature "range_state32" ["int32"]);
                 ([-2], signature "range_state64" ["int64"])])
      as (_ & _ & _ & Hmany); [reflexivity | reflexivity | done |].
    destruct (Hmany _ _ _ 2 eq_refl) as [Hin _].
    + exists ([-2], signature "range_state64" ["int64"]).
      split; [|reflexivity]. apply list_elem_of_further, list_elem_of_here.
    + intros e He.
      repeat (apply elem_of_cons in He as [->|He]); try (vm_compute; discriminate).
      by apply elem_of_nil in He.
    + destruct Hin as [Hone _]; [vm_compute; discriminate|].
      apply (Hone ([-2], signature "range_state64" ["int64"])). reflexivity.
  - destruct (apply_downcast_selection maxint default_lt run_generic
                steep_context Squeeze
                (signature "narrow" ["narrow"])
                [signature "narrower" ["narrower"]]
                ["wide"]
                [([- 2 ^ 63], signature "narrow" ["narrow"]);
                 ([- 2 ^ 63 - 1], signature "narrower" ["narrower"])])
      as (_ & _ & _ & Hmany); [reflexivity | reflexivity | done |].
    destruct (Hmany _ _ _ (2 ^ 63) eq_refl) as [_ Hbeyond].
    + exists ([- 2 ^ 63], signature "narrow" ["narrow"]).
      split; [|reflexivity]. apply list_elem_of_here.
    + intros e He.
      repeat (apply elem_of_cons in He as [->|He]); try (vm_compute; discriminate).
      by apply elem_of_nil in He.
    + apply Hbeyond. reflexivity.
Defined.
